(** * proprietary_ble.c: a fixed block pool and a recency queue of BLE devices

    A shallow embedding of [src/proprietary_ble.c] (built with
    [USE_FIXED_POOL] set to 1) and the verification of its queue and pool.

    Modelling choices.
    - A pointer into [device_pool] is [None] (the C [NULL]) or [Some i], the
      [i]-th block of the arena.  [GET_MEM_FROM_BLOCK] and
      [GET_BLOCK_FROM_MEM] move between a block header and the memory that
      follows it; on block indices both are the identity.
    - The arena is the list of its blocks, each a [blockheader_t] followed by
      [sizeof (device_t)] bytes that hold a [device_t], which is how the
      program uses [device_pool]; reading or writing through [NULL] or
      through a block index outside the arena is undefined behaviour in C and
      is the result [Fault] here.
    - The loops that follow [next] pointers take fuel; running out of it is
      the result [OutOfFuel].  The theorems show that a fuel of 32 is enough
      on every state the program reaches.
    - [printf] appends a [line] to [stdout], which is part of the state.
    - [systime_ms_get ()] reads the clock of the machine; [on_discovery]
      takes the value read as its argument [timestamp]. *)

From Stdlib Require Import ZArith Lia Strings.Byte.
From stdpp Require Import base tactics option numbers list sets sorting.

Local Open Scope Z_scope.

(** ** Data *)

Abbreviation ptr := (option nat).

Record pair_adv_data_t := mk_adv {
  device_id : Z;                 (* uint32_t *)
  device_name : list byte;       (* uint8_t [16] *)
  device_data : list byte;       (* uint8_t [64] *)
  rf_address : Z;                (* uint32_t *)
  rssi : Z                       (* uint8_t *)
}.

Record device_t := mk_device {
  adv : pair_adv_data_t;
  discovery_time : Z;            (* unsigned long long *)
  next : ptr;
  prev : ptr
}.

(** A block of the arena: its [blockheader_t] and the memory after it, which
    holds a [device_t] ([blocksize] is [sizeof (device_t)]). *)
Record block := mk_block {
  nextfree : ptr;
  mem : device_t
}.

Record fixedpool_t := mk_fixedpool {
  fp_nextfree : ptr;
  blocksize : Z;                 (* size_t *)
  blockcount : Z                 (* uint32_t *)
}.

Inductive line : Type :=
| warn_null_free
| warn_double_free (p : nat) (nf : nat)
| warn_large_count (n : Z)
| hdr_by_time
| hdr_by_rssi
| row (time dev rssi : Z).

(** The globals of the program.  [device_pool] is [pool_header] followed by
    [pool_blocks]. *)
Record state := mk_state {
  pool_header : fixedpool_t;
  pool_blocks : list block;
  device_count : Z;              (* int *)
  head : ptr;
  tail : ptr;
  stdout : list line
}.

Definition set_header (h : fixedpool_t) (st : state) : state :=
  mk_state h (pool_blocks st) (device_count st) (head st) (tail st) (stdout st).
Definition set_blocks (bs : list block) (st : state) : state :=
  mk_state (pool_header st) bs (device_count st) (head st) (tail st) (stdout st).
Definition set_device_count (c : Z) (st : state) : state :=
  mk_state (pool_header st) (pool_blocks st) c (head st) (tail st) (stdout st).
Definition set_head (p : ptr) (st : state) : state :=
  mk_state (pool_header st) (pool_blocks st) (device_count st) p (tail st) (stdout st).
Definition set_tail (p : ptr) (st : state) : state :=
  mk_state (pool_header st) (pool_blocks st) (device_count st) (head st) p (stdout st).
Definition emit (ls : list line) (st : state) : state :=
  mk_state (pool_header st) (pool_blocks st) (device_count st) (head st) (tail st)
           (stdout st ++ ls).

Definition with_nextfree (p : ptr) (b : block) : block := mk_block p (mem b).
Definition with_mem (f : device_t → device_t) (b : block) : block :=
  mk_block (nextfree b) (f (mem b)).
Definition with_next (p : ptr) (d : device_t) : device_t :=
  mk_device (adv d) (discovery_time d) p (prev d).
Definition with_prev (p : ptr) (d : device_t) : device_t :=
  mk_device (adv d) (discovery_time d) (next d) p.
Definition with_time (t : Z) (d : device_t) : device_t :=
  mk_device (adv d) t (next d) (prev d).
Definition with_adv (a : pair_adv_data_t) (d : device_t) : device_t :=
  mk_device a (discovery_time d) (next d) (prev d).
Definition set_rssi (r : Z) (a : pair_adv_data_t) : pair_adv_data_t :=
  mk_adv (device_id a) (device_name a) (device_data a) (rf_address a) r.
Definition with_rssi (r : Z) (d : device_t) : device_t :=
  with_adv (set_rssi r (adv d)) d.

(** ** The monad of the program: state, undefined behaviour, fuel *)

Inductive result (A : Type) : Type :=
| Ok (a : A)
| Fault
| OutOfFuel.
Arguments Ok {A} a.
Arguments Fault {A}.
Arguments OutOfFuel {A}.

Definition M (A : Type) : Type := state → result (A * state).

Global Instance M_ret : MRet M := λ A a st, Ok (a, st).
Global Instance M_bind : MBind M := λ A B f m st,
  match m st with
  | Ok (a, st') => f a st'
  | Fault => Fault
  | OutOfFuel => OutOfFuel
  end.

Definition fault {A} : M A := λ _, Fault.
Definition out_of_fuel {A} : M A := λ _, OutOfFuel.
Definition get {A} (f : state → A) : M A := λ st, Ok (f st, st).
Definition modify (f : state → state) : M unit := λ st, Ok (tt, f st).
Definition printf (l : line) : M unit := modify (emit [l]).

(** [*p] for a pointer [p] to a block. *)
Definition load (p : ptr) : M block := λ st,
  match p with
  | None => Fault
  | Some i => match pool_blocks st !! i with
              | Some b => Ok (b, st)
              | None => Fault
              end
  end.

(** A write to one member of the block [p] points to. *)
Definition store (p : ptr) (f : block → block) : M unit := λ st,
  match p with
  | None => Fault
  | Some i => match pool_blocks st !! i with
              | Some b => Ok (tt, set_blocks (<[i:=f b]> (pool_blocks st)) st)
              | None => Fault
              end
  end.

Definition INT_MAX : Z := 2147483647.
Definition INT_MIN : Z := -2147483648.

(** Arithmetic on [int]: overflow is undefined. *)
Definition int_arith (z : Z) : M Z :=
  if (INT_MIN <=? z) && (z <=? INT_MAX) then mret z else fault.

(** Conversion of a [uint32_t] expression to [int] (two's complement). *)
Definition uint32_wrap (z : Z) : Z := z mod 4294967296.
Definition to_int (z : Z) : Z := (z + 2147483648) mod 4294967296 - 2147483648.

(** ** Device memory pool *)

Definition sizeof_device_t : Z := 120.

(** [for (i = header->blockcount-1; i >= 0; i--)], with [n] the number of
    iterations left, so that [i] is [n - 1]. *)
Fixpoint pool_init_loop (n : nat) (prev cur : ptr) : M ptr :=
  match n with
  | O => mret cur
  | S i =>
      store (Some i) (with_nextfree prev);;
      pool_init_loop i (Some i) (Some i)
  end.

Definition set_fp_nextfree (p : ptr) (st : state) : state :=
  set_header (mk_fixedpool p (blocksize (pool_header st)) (blockcount (pool_header st))) st.
Definition set_blocksize (z : Z) (st : state) : state :=
  set_header (mk_fixedpool (fp_nextfree (pool_header st)) z (blockcount (pool_header st))) st.
Definition set_blockcount (z : Z) (st : state) : state :=
  set_header (mk_fixedpool (fp_nextfree (pool_header st)) (blocksize (pool_header st)) z) st.

Definition pool_init (bsize bcount : Z) : M unit :=
  modify (set_blocksize bsize);;
  modify (set_blockcount bcount);;
  bc ← get (λ st, blockcount (pool_header st));
  cur ← pool_init_loop (Z.to_nat (to_int (uint32_wrap (bc - 1)) + 1)) None None;
  modify (set_fp_nextfree cur).

(** [memset (pool, 0, sizeof (fixedpool_t))] *)
Definition pool_destroy : M unit := modify (set_header (mk_fixedpool None 0 0)).

Definition pool_alloc (size : Z) : M ptr :=
  block ← get (λ st, fp_nextfree (pool_header st));
  match block with
  | Some _ =>
      b ← load block;
      modify (set_fp_nextfree (nextfree b));;
      store block (with_nextfree None);;
      mret block
  | None => mret None
  end.

Definition pool_free (p : ptr) : M unit :=
  match p with
  | None => printf warn_null_free
  | Some i =>
      b ← load p;
      match nextfree b with
      | Some nf => printf (warn_double_free i nf)
      | None => mret tt
      end;;
      top ← get (λ st, fp_nextfree (pool_header st));
      store p (with_nextfree top);;
      modify (set_fp_nextfree p)
  end.

(** ** Device queue *)

Fixpoint find_duplicate_loop (fuel : nat) (data : pair_adv_data_t) (cur : ptr) : M ptr :=
  match cur with
  | None => mret None
  | Some _ =>
      match fuel with
      | O => out_of_fuel
      | S fuel' =>
          b ← load cur;
          if device_id (adv (mem b)) =? device_id data then mret cur
          else find_duplicate_loop fuel' data (next (mem b))
      end
  end.

Definition find_duplicate (fuel : nat) (data : pair_adv_data_t) : M ptr :=
  h ← get head;
  find_duplicate_loop fuel data h.

Definition when (c : bool) (m : M unit) : M unit := if c then m else mret tt.

Definition queue_remove (node : ptr) : M unit :=
  match node with
  | None => mret tt
  | Some _ =>
      h ← get head;
      when (bool_decide (h = node)) (b ← load node; modify (set_head (next (mem b))));;
      t ← get tail;
      when (bool_decide (t = node)) (b ← load node; modify (set_tail (prev (mem b))));;
      b ← load node;
      when (bool_decide (prev (mem b) ≠ None))
        (b' ← load node; store (prev (mem b)) (with_mem (with_next (next (mem b')))));;
      b ← load node;
      when (bool_decide (next (mem b) ≠ None))
        (b' ← load node; store (next (mem b)) (with_mem (with_prev (prev (mem b')))));;
      store node (with_mem (with_prev None));;
      store node (with_mem (with_next None));;
      c ← get device_count;
      c' ← int_arith (c - 1);
      modify (set_device_count c')
  end.

Definition queue_push (node : ptr) : M unit :=
  match node with
  | None => mret tt
  | Some _ =>
      store node (with_mem (with_prev None));;
      h ← get head;
      store node (with_mem (with_next h));;
      h ← get head;
      when (bool_decide (h ≠ None)) (store h (with_mem (with_prev node)));;
      modify (set_head node);;
      t ← get tail;
      when (bool_decide (t = None)) (modify (set_tail node));;
      c ← get device_count;
      c' ← int_arith (c + 1);
      modify (set_device_count c')
  end.

Definition queue_pop : M ptr :=
  node ← get tail;
  match node with
  | None => mret node
  | Some _ =>
      b ← load node;
      modify (set_tail (prev (mem b)));;
      t ← get tail;
      when (bool_decide (t ≠ None)) (store t (with_mem (with_next None)));;
      h ← get head;
      when (bool_decide (h = node)) (modify (set_head None));;
      c ← get device_count;
      c' ← int_arith (c - 1);
      modify (set_device_count c');;
      mret node
  end.

Fixpoint queue_clear (fuel : nat) : M unit :=
  h ← get head;
  match h with
  | None => mret tt
  | Some _ =>
      match fuel with
      | O => out_of_fuel
      | S fuel' => p ← queue_pop; pool_free p;; queue_clear fuel'
      end
  end.

(** ** Device discovery and printing *)

(** [while (device_count > 32)] of [on_discovery]. *)
Fixpoint large_count_loop (fuel : nat) : M unit :=
  c ← get device_count;
  if 32 <? c then
    match fuel with
    | O => out_of_fuel
    | S fuel' =>
        printf (warn_large_count c);;
        p ← queue_pop;
        pool_free p;;
        large_count_loop fuel'
    end
  else mret tt.

Definition on_discovery (fuel : nat) (data : pair_adv_data_t) (timestamp : Z) : M unit :=
  dupe ← find_duplicate fuel data;
  match dupe with
  | Some _ =>
      queue_remove dupe;;
      queue_push dupe;;
      store dupe (with_mem (with_rssi (rssi data)));;
      store dupe (with_mem (with_time timestamp))
  | None =>
      large_count_loop fuel;;
      c ← get device_count;
      new ← (if c =? 32 then queue_pop else pool_alloc sizeof_device_t);
      store new (with_mem (with_adv data));;
      store new (with_mem (with_time timestamp));;
      queue_push new
  end.

Definition row_of (d : device_t) : line :=
  row (discovery_time d) (device_id (adv d)) (rssi (adv d)).

Fixpoint print_queue_by_time_loop (fuel : nat) (cur : ptr) : M unit :=
  match cur with
  | None => mret tt
  | Some _ =>
      match fuel with
      | O => out_of_fuel
      | S fuel' =>
          b ← load cur;
          printf (row_of (mem b));;
          print_queue_by_time_loop fuel' (next (mem b))
      end
  end.

Definition print_queue_by_time (fuel : nat) : M unit :=
  printf hdr_by_time;;
  h ← get head;
  print_queue_by_time_loop fuel h.

(** [sorted[j]] of the local array of [print_queue_by_rssi]. *)
Definition array_get (sorted : list ptr) (j : nat) : M ptr := λ st,
  match sorted !! j with
  | Some p => Ok (p, st)
  | None => Fault
  end.

Definition array_set (sorted : list ptr) (j : nat) (p : ptr) : M (list ptr) := λ st,
  match sorted !! j with
  | Some _ => Ok (<[j:=p]> sorted, st)
  | None => Fault
  end.

(** [while (j > 0 && sorted[j]->adv.rssi > sorted[j-1]->adv.rssi)] *)
Fixpoint sift (j : nat) (sorted : list ptr) : M (list ptr) :=
  match j with
  | O => mret sorted
  | S j' =>
      pj ← array_get sorted j;
      bj ← load pj;
      pj' ← array_get sorted j';
      bj' ← load pj';
      if rssi (adv (mem bj')) <? rssi (adv (mem bj)) then
        temp ← array_get sorted j;
        pj' ← array_get sorted j';
        sorted ← array_set sorted j pj';
        sorted ← array_set sorted j' temp;
        sift j' sorted
      else mret sorted
  end.

Fixpoint insert_loop (fuel : nat) (to_insert : ptr) (next_i : nat) (sorted : list ptr)
  : M (list ptr) :=
  match to_insert with
  | None => mret sorted
  | Some _ =>
      match fuel with
      | O => out_of_fuel
      | S fuel' =>
          if bool_decide (32 ≤ next_i)%nat then
            c ← get device_count;
            printf (warn_large_count c);;
            mret sorted
          else
            sorted ← array_set sorted next_i to_insert;
            sorted ← sift next_i sorted;
            b ← load to_insert;
            insert_loop fuel' (next (mem b)) (S next_i) sorted
      end
  end.

(** [for (j = 0; j < 32; j++)], with [n] the number of iterations left. *)
Fixpoint print_sorted_loop (n : nat) (j : nat) (sorted : list ptr) : M unit :=
  match n with
  | O => mret tt
  | S n' =>
      p ← array_get sorted j;
      b ← load p;
      printf (row_of (mem b));;
      print_sorted_loop n' (S j) sorted
  end.

Definition print_queue_by_rssi (fuel : nat) : M unit :=
  h ← get head;
  sorted ← insert_loop fuel h 0 (replicate 32 None);
  printf hdr_by_rssi;;
  print_sorted_loop 32 0 sorted.

(** ** The program at start-up and its drivers *)

Definition zero_adv : pair_adv_data_t :=
  mk_adv 0 (replicate 16 x00) (replicate 64 x00) 0 0.
Definition zero_block : block := mk_block None (mk_device zero_adv 0 None None).

(** The zero-initialised globals; [device_pool] has room for 32 blocks. *)
Definition boot : state :=
  mk_state (mk_fixedpool None 0 0) (replicate 32 zero_block) 0 None None [].

(** A run of [on_discovery] over the advertisements received, each with the
    time at which it is received. *)
Fixpoint discover (fuel : nat) (events : list (pair_adv_data_t * Z)) : M unit :=
  match events with
  | [] => mret tt
  | (data, timestamp) :: events' =>
      on_discovery fuel data timestamp;; discover fuel events'
  end.

(** [main], once the pool is set up: [pool_init (device_pool, sizeof (device_t), 32)]
    and then the advertisements. *)
Definition run (fuel : nat) (events : list (pair_adv_data_t * Z)) : M unit :=
  pool_init sizeof_device_t 32;; discover fuel events.

(** The advertisement the tests of the source send: everything zero but the
    device id and the rssi. *)
Definition advert (id r : Z) : pair_adv_data_t :=
  mk_adv id (replicate 16 x00) (replicate 64 x00) 0 r.

Definition printed {A} (r : result (A * state)) : list line :=
  match r with
  | Ok (_, st) => stdout st
  | _ => []
  end.

(** [for (i = 0; i < n; i++) pointers[i] = pool_alloc (device_pool, sizeof (device_t));]
    of [test_pool]. *)
Fixpoint alloc_loop (n : nat) : M (list ptr) :=
  match n with
  | O => mret []
  | S n' =>
      p ← pool_alloc sizeof_device_t;
      ps ← alloc_loop n';
      mret (p :: ps)
  end.

(** [for (i = 0; i < TEST_POOL_SIZE; i++) pool_free (device_pool, pointers[i]);]
    of [test_pool]. *)
Fixpoint free_loop (ps : list ptr) : M unit :=
  match ps with
  | [] => mret tt
  | p :: ps' => pool_free p;; free_loop ps'
  end.

(** An entry of the queue: an advertisement and the time it was last seen. *)
Abbreviation entry := (pair_adv_data_t * Z)%type.

Definition entry_of (b : block) : entry := (adv (mem b), discovery_time (mem b)).

Definition row_of_entry (e : entry) : line := row e.2 (device_id e.1) (rssi e.1).

(** The entries met by [for (cur = head; cur != NULL; cur = cur->next)], the
    traversal of [find_duplicate] and of the two print functions: the live
    entries, most recent first. *)
Fixpoint live_entries_loop (fuel : nat) (cur : ptr) : M (list entry) :=
  match cur with
  | None => mret []
  | Some _ =>
      match fuel with
      | O => out_of_fuel
      | S fuel' =>
          b ← load cur;
          es ← live_entries_loop fuel' (next (mem b));
          mret (entry_of b :: es)
      end
  end.

Definition live_entries (fuel : nat) : M (list entry) :=
  h ← get head;
  live_entries_loop fuel h.

(** ** Views of the arena

    The members of a block are independent memory; each structure of the
    program lives in one of them: the queue in [prev]/[next], the free stack
    in [nextfree], the advertisement and its time in [adv]/[discovery_time]. *)

Definition link_of (b : block) : ptr * ptr := (prev (mem b), next (mem b)).
Definition links (bs : list block) : list (ptr * ptr) := link_of <$> bs.
Definition frees (bs : list block) : list ptr := nextfree <$> bs.
Definition pays (bs : list block) : list entry := entry_of <$> bs.

Definition first_or (nx : ptr) (ns : list nat) : ptr :=
  match ns with
  | [] => nx
  | n :: _ => Some n
  end.

Definition last_or (pv : ptr) (ns : list nat) : ptr :=
  match last ns with
  | Some n => Some n
  | None => pv
  end.

(** The nodes [ns] are doubly linked in this order, the first one after [pv]
    and the last one before [nx]. *)
Fixpoint chain (L : list (ptr * ptr)) (pv : ptr) (ns : list nat) (nx : ptr) : Prop :=
  match ns with
  | [] => True
  | n :: ns' => L !! n = Some (pv, first_or nx ns') ∧ chain L (Some n) ns' nx
  end.

(** The blocks [fl] are the free stack, top first. *)
Fixpoint free_chain (F : list ptr) (fl : list nat) : Prop :=
  match fl with
  | [] => True
  | n :: fl' => F !! n = Some (first_or None fl') ∧ free_chain F fl'
  end.

Definition entry_at (P : list entry) (n : nat) : entry :=
  default (zero_adv, 0) (P !! n).

Definition entries (P : list entry) (ns : list nat) : list entry := entry_at P <$> ns.

(** The representation invariant: the queue holds the nodes [ns], head first,
    and the free stack the blocks [fl]; together they are the 32 blocks of
    the arena. *)
Record inv (st : state) (ns fl : list nat) : Prop := mk_inv {
  inv_head : head st = first_or None ns;
  inv_tail : tail st = last ns;
  inv_count : device_count st = Z.of_nat (length ns);
  inv_chain : chain (links (pool_blocks st)) None ns None;
  inv_top : fp_nextfree (pool_header st) = first_or None fl;
  inv_free : free_chain (frees (pool_blocks st)) fl;
  inv_nodup : NoDup (ns ++ fl);
  inv_size : (length ns + length fl = 32)%nat
}.

(** What the queue operations leave alone. *)
Definition queue_frame (st st' : state) : Prop :=
  pool_header st' = pool_header st ∧ stdout st' = stdout st ∧
  frees (pool_blocks st') = frees (pool_blocks st) ∧
  pays (pool_blocks st') = pays (pool_blocks st).

(** What [pool_alloc] leaves alone. *)
Definition pool_frame (st st' : state) : Prop :=
  head st' = head st ∧ tail st' = tail st ∧
  device_count st' = device_count st ∧ stdout st' = stdout st ∧
  links (pool_blocks st') = links (pool_blocks st) ∧
  pays (pool_blocks st') = pays (pool_blocks st).

(** What a write to an advertisement or to its time leaves alone. *)
Definition store_frame (st st' : state) : Prop :=
  pool_header st' = pool_header st ∧
  head st' = head st ∧ tail st' = tail st ∧
  device_count st' = device_count st ∧ stdout st' = stdout st ∧
  links (pool_blocks st') = links (pool_blocks st) ∧
  frees (pool_blocks st') = frees (pool_blocks st).

Definition id_at (P : list entry) (n : nat) : Z := device_id (entry_at P n).1.

(** The result of [find_duplicate] on the queue [ns]. *)
Inductive found (P : list entry) (id : Z) (ns : list nat) : ptr → Prop :=
| found_none :
    Forall (λ n, id_at P n ≠ id) ns → found P id ns None
| found_some l1 n l2 :
    ns = l1 ++ n :: l2 → id_at P n = id → Forall (λ m, id_at P m ≠ id) l1 →
    found P id ns (Some n).

Definition ids (es : list entry) : list Z := (λ e : entry, device_id e.1) <$> es.

Definition fresh (id : Z) (es : list entry) : Prop :=
  Forall (λ e : entry, device_id e.1 ≠ id) es.

(** What [on_discovery] does to the entries of the queue, most recent first. *)
Inductive step (data : pair_adv_data_t) (ts : Z) : list entry → list entry → Prop :=
| step_merge l1 a t l2 :
    device_id a = device_id data → fresh (device_id data) l1 →
    step data ts (l1 ++ (a, t) :: l2) ((set_rssi (rssi data) a, ts) :: l1 ++ l2)
| step_insert es :
    fresh (device_id data) es → (length es < 32)%nat →
    step data ts es ((data, ts) :: es)
| step_evict es e :
    fresh (device_id data) (es ++ [e]) → length (es ++ [e]) = 32%nat →
    step data ts (es ++ [e]) ((data, ts) :: es).

Inductive steps : list (pair_adv_data_t * Z) → list entry → list entry → Prop :=
| steps_nil es : steps [] es es
| steps_cons data ts events es1 es2 es3 :
    step data ts es1 es2 → steps events es2 es3 →
    steps ((data, ts) :: events) es1 es3.

(** The distinct device ids of a run of advertisements, the most recently
    seen first. *)
Definition recency (seen : list Z) : list Z := reverse (remove_dups seen).

(** [es] are the entries of the queue once the devices [seen] were seen. *)
Definition tracks (seen : list Z) (es : list entry) : Prop :=
  ids es = take 32 (recency seen).

Definition rssi_at (P : list entry) (n : nat) : Z := rssi (entry_at P n).1.

(** What the inner loop of [print_queue_by_rssi] does to the filled part of
    [sorted], read from its end: the new element [x] moves before the
    elements of strictly smaller key. *)
Fixpoint sift_list {A} (key : A → Z) (x : A) (racc : list A) : list A :=
  match racc with
  | [] => [x]
  | y :: r => if key y <? key x then y :: sift_list key x r else x :: y :: r
  end.

(** The filled part of [sorted] once the elements of [l] were inserted. *)
Definition rssi_order {A} (key : A → Z) (l : list A) : list A :=
  reverse (foldl (λ acc x, sift_list key x acc) [] l).

Definition entry_rssi (e : entry) : Z := rssi e.1.

(** The free stack of the pool holds the blocks [fl], each of them once. *)
Definition free_stack (st : state) (fl : list nat) : Prop :=
  fp_nextfree (pool_header st) = first_or None fl ∧
  free_chain (frees (pool_blocks st)) fl ∧ NoDup fl.

(** The state after [pool_init (device_pool, sizeof (device_t), 32)]. *)
Definition ready : state :=
  Eval vm_compute in
    match pool_init sizeof_device_t 32 boot with
    | Ok (_, st) => st
    | _ => boot
    end.

(** Two devices seen, the first one at time 100 and the second at 101. *)
Definition two_devices : list (pair_adv_data_t * Z) :=
  [(advert 1 10, 100); (advert 2 20, 101)].

Definition after_two_devices : state :=
  Eval vm_compute in
    match run 32 two_devices boot with
    | Ok (_, st) => st
    | _ => boot
    end.

(** Four devices of rssi 50, 80, 80 and 30, seen in this order. *)
Definition four_devices : list (pair_adv_data_t * Z) :=
  [(advert 1 50, 1); (advert 2 80, 2); (advert 3 80, 3); (advert 4 30, 4)].

(** The devices 1 .. [n], each seen once, at the times 1 .. [n]; the rssi of
    device [i] is [i mod 5]. *)
Definition devices_up_to (n : nat) : list (pair_adv_data_t * Z) :=
  (λ i, (advert (Z.of_nat i) (Z.of_nat (i mod 5)), Z.of_nat i)) <$> seq 1 n.

(** The invariant, and the blocks of the queue are marked allocated (their
    [nextfree] is [NULL]). *)
Definition inv_alloc (st : state) (ns fl : list nat) : Prop :=
  inv st ns fl ∧ ∀ n, n ∈ ns → frees (pool_blocks st) !! n = Some None.

(** A state of the program with an empty queue and the 32 blocks of
    [device_pool], whatever they hold. *)
Definition empty_queue (st : state) : Prop :=
  head st = None ∧ tail st = None ∧ device_count st = 0 ∧
  length (pool_blocks st) = 32%nat.

(** The first and the last advertisement of the device [id]. *)
Definition first_event (id : Z) (events : list entry) : option entry :=
  filter (λ ev : entry, device_id ev.1 = id) events !! 0%nat.

Definition last_event (id : Z) (events : list entry) : option entry :=
  last (filter (λ ev : entry, device_id ev.1 = id) events).

(** The entry [e] holds the time and the rssi of the last advertisement of
    its device in [seen], and the other members of one of them. *)
Definition from_events (seen : list entry) (e : entry) : Prop :=
  ∃ d d0 t0,
    last_event (device_id e.1) seen = Some (d, e.2) ∧
    (d0, t0) ∈ seen ∧ device_id d0 = device_id e.1 ∧
    e.1 = set_rssi (rssi d) d0.

(** The entry [e] holds the time and the rssi of the last advertisement of
    its device in [seen], and the other members of the first one. *)
Definition from_first (seen : list entry) (e : entry) : Prop :=
  ∃ d0 t0 d,
    first_event (device_id e.1) seen = Some (d0, t0) ∧
    last_event (device_id e.1) seen = Some (d, e.2) ∧
    e.1 = set_rssi (rssi d) d0.

(** One block taken from the pool of 32. *)
Definition one_allocated : state :=
  Eval vm_compute in
    match (pool_init sizeof_device_t 32;; pool_alloc sizeof_device_t) boot with
    | Ok (_, st) => st
    | _ => boot
    end.

(** ** Lemmas on chains *)

Lemma first_or_app nx l1 l2 : first_or nx (l1 ++ l2) = first_or (first_or nx l2) l1.
Proof. by destruct l1. Qed.

Lemma last_or_nil pv : last_or pv [] = pv.
Proof. done. Qed.

Lemma last_or_cons pv n l : last_or pv (n :: l) = last_or (Some n) l.
Proof.
  unfold last_or. destruct l as [|m l]; [done|].
  rewrite last_cons_cons. destruct (last (m :: l)) eqn:E; [done|].
  by apply last_None in E.
Qed.

Lemma chain_app L pv l1 l2 nx :
  chain L pv (l1 ++ l2) nx ↔
  chain L pv l1 (first_or nx l2) ∧ chain L (last_or pv l1) l2 nx.
Proof.
  revert pv. induction l1 as [|n l1 IH]; intros pv; simpl.
  - rewrite last_or_nil. tauto.
  - rewrite last_or_cons, first_or_app, IH. tauto.
Qed.

Lemma chain_lookup L pv ns nx n :
  chain L pv ns nx → n ∈ ns → is_Some (L !! n).
Proof.
  revert pv. induction ns as [|m ns IH]; intros pv; simpl.
  - by intros _ ?%elem_of_nil.
  - intros [H1 H2] [->|Hin]%elem_of_cons; eauto.
Qed.

Lemma chain_insert L pv ns nx n x :
  n ∉ ns → chain L pv ns nx → chain (<[n:=x]> L) pv ns nx.
Proof.
  revert pv. induction ns as [|m ns IH]; intros pv; simpl; [done|].
  intros [Hne Hnin]%not_elem_of_cons [H1 H2]. split; [|by apply IH].
  by rewrite list_lookup_insert_ne.
Qed.

Lemma free_chain_insert F fl n x :
  n ∉ fl → free_chain F fl → free_chain (<[n:=x]> F) fl.
Proof.
  induction fl as [|m fl IH]; simpl; [done|].
  intros [Hne Hnin]%not_elem_of_cons [H1 H2]. split; [|by apply IH].
  by rewrite list_lookup_insert_ne.
Qed.

Lemma free_chain_lookup F fl n :
  free_chain F fl → n ∈ fl → is_Some (F !! n).
Proof.
  induction fl as [|m fl IH]; simpl.
  - by intros _ ?%elem_of_nil.
  - intros [H1 H2] [->|Hin]%elem_of_cons; eauto.
Qed.

Lemma entries_insert P ns n x :
  n ∉ ns → entries (<[n:=x]> P) ns = entries P ns.
Proof.
  intros Hn. unfold entries. apply list_fmap_ext. intros i m Hm.
  unfold entry_at. rewrite list_lookup_insert_ne; [done|].
  intros ->. apply Hn. by eapply list_elem_of_lookup_2.
Qed.

(** ** Symbolic execution *)

Lemma links_lookup bs n pv nx :
  links bs !! n = Some (pv, nx) →
  ∃ b, bs !! n = Some b ∧ prev (mem b) = pv ∧ next (mem b) = nx.
Proof.
  unfold links. rewrite list_lookup_fmap. destruct (bs !! n) as [b|]; [|done].
  simpl. intros [= <- <-]. eauto.
Qed.

Lemma fmap_insert_same {A B} (g : A → B) (l : list A) i x y :
  l !! i = Some x → g y = g x → g <$> <[i:=y]> l = g <$> l.
Proof.
  intros Hl Hg. rewrite list_fmap_insert, Hg. apply list_insert_id.
  by rewrite list_lookup_fmap, Hl.
Qed.

Lemma int_arith_ok z st :
  INT_MIN ≤ z ≤ INT_MAX → int_arith z st = Ok (z, st).
Proof.
  intros [H1 H2]. unfold int_arith.
  apply Z.leb_le in H1, H2. by rewrite H1, H2.
Qed.

Ltac len :=
  unfold links, frees, pays; rewrite ?length_insert, ?length_fmap;
  first [ assumption | eapply lookup_lt_Some; eassumption | lia ].

Ltac look :=
  repeat first
    [ rewrite list_lookup_insert_eq by len
    | rewrite list_lookup_insert_ne by congruence
    | rewrite bool_decide_eq_true_2 by congruence
    | rewrite bool_decide_eq_false_2 by congruence
    | match goal with
      | H : ?l !! ?i = Some _ |- context [ ?l !! ?i ] => rewrite H
      | H : prev (mem ?b) = _ |- context [ prev (mem ?b) ] => rewrite H
      | H : next (mem ?b) = _ |- context [ next (mem ?b) ] => rewrite H
      end ].

Ltac arith :=
  repeat rewrite int_arith_ok
    by (unfold INT_MIN, INT_MAX; simpl length in *; rewrite ?length_app in *;
        simpl length in *; lia).

Ltac exec :=
  repeat (look; arith;
          cbn -[Z.of_nat Z.add Z.sub insert lookup fmap int_arith chain free_chain
                entries]).

Ltac views :=
  cbn -[Z.of_nat Z.add Z.sub insert lookup fmap int_arith chain free_chain entries];
  unfold links, frees, pays;
  repeat first
    [ erewrite fmap_insert_same by (look; reflexivity)
    | rewrite list_fmap_insert ];
  unfold link_of, entry_of, with_nextfree, with_mem, with_next, with_prev,
    with_time, with_rssi, with_adv;
  cbn -[Z.of_nat Z.add Z.sub insert lookup fmap int_arith chain free_chain entries];
  change (λ b : block, (prev (mem b), next (mem b))) with link_of;
  change (λ b : block, (adv (mem b), discovery_time (mem b))) with entry_of;
  repeat match goal with
    | |- context [ link_of <$> ?bs ] => change (link_of <$> bs) with (links bs)
    | |- context [ nextfree <$> ?bs ] => change (nextfree <$> bs) with (frees bs)
    | |- context [ entry_of <$> ?bs ] => change (entry_of <$> bs) with (pays bs)
    end.

Lemma last_cons_is_Some {A} (x : A) l : ∃ y, last (x :: l) = Some y.
Proof.
  destruct (last (x :: l)) eqn:E; [eauto|]. by apply last_None in E.
Qed.

Ltac fin :=
  views; repeat split; first [ done | simpl; lia | look; done | idtac ].

Lemma queue_push_spec st n ns :
  head st = first_or None ns → tail st = last ns →
  device_count st = Z.of_nat (length ns) → (length ns ≤ 32)%nat →
  chain (links (pool_blocks st)) None ns None → NoDup ns →
  n ∉ ns → (n < length (pool_blocks st))%nat →
  ∃ st', queue_push (Some n) st = Ok (tt, st') ∧
         head st' = Some n ∧ tail st' = last (n :: ns) ∧
         device_count st' = Z.of_nat (length (n :: ns)) ∧
         chain (links (pool_blocks st')) None (n :: ns) None ∧
         queue_frame st st'.
Proof.
  destruct st as [hdr bs c hd tl out]; simpl. intros -> -> -> Hlen Hch Hnd Hn Hlt.
  destruct (lookup_lt_is_Some_2 bs n Hlt) as [b Hb].
  unfold queue_push, queue_frame, mbind, M_bind.
  destruct ns as [|m ns].
  - exec. eexists. split; [reflexivity|]. fin.
  - simpl in Hch. destruct Hch as [Hm Hch].
    apply not_elem_of_cons in Hn as [Hnm Hn].
    apply NoDup_cons in Hnd as [Hm' _].
    destruct (links_lookup _ _ _ _ Hm) as (bm & Hbm & Hpm & Hxm).
    destruct (last_cons_is_Some m ns) as [t Ht]. rewrite !Ht.
    exec. eexists. split; [reflexivity|]. fin.
    do 3 (apply chain_insert; [done|]). done.
Qed.

Lemma last_or_None l : last_or None l = last l.
Proof. unfold last_or. by destruct (last l). Qed.

Lemma chain_set_first L pv pv' m l nx a b :
  chain L pv (m :: l) nx → m ∉ l → L !! m = Some (a, b) →
  chain (<[m:=(pv', b)]> L) pv' (m :: l) nx.
Proof.
  simpl. intros [H1 H2] Hm Hl. split.
  - rewrite list_lookup_insert_eq by (by eapply lookup_lt_Some). congruence.
  - by apply chain_insert.
Qed.

Lemma chain_set_last L pv l nx nx' p a b :
  chain L pv l nx → NoDup l → last l = Some p → L !! p = Some (a, b) →
  chain (<[p:=(a, nx')]> L) pv l nx'.
Proof.
  revert pv. induction l as [|m l IH]; intros pv; [done|].
  destruct l as [|m' l].
  - simpl. intros [H1 _] _ [= ->] Hp. split; [|done].
    rewrite list_lookup_insert_eq by (by eapply lookup_lt_Some). congruence.
  - rewrite last_cons_cons. intros [H1 H2] [Hm Hnd]%NoDup_cons Hlast Hp.
    split; [|by apply IH].
    rewrite list_lookup_insert_ne; [done|].
    intros ->. apply Hm. by apply last_Some_elem_of.
Qed.

Lemma queue_pop_spec st l n :
  head st = first_or None (l ++ [n]) → tail st = last (l ++ [n]) →
  device_count st = Z.of_nat (length (l ++ [n])) → (length (l ++ [n]) ≤ 32)%nat →
  chain (links (pool_blocks st)) None (l ++ [n]) None → NoDup (l ++ [n]) →
  ∃ st', queue_pop st = Ok (Some n, st') ∧
         head st' = first_or None l ∧ tail st' = last l ∧
         device_count st' = Z.of_nat (length l) ∧
         chain (links (pool_blocks st')) None l None ∧
         queue_frame st st'.
Proof.
  destruct st as [hdr bs c hd tl out]; simpl. intros -> -> -> Hlen Hch Hnd.
  apply chain_app in Hch as [Hch [Hn _]]. simpl in Hch.
  apply NoDup_app in Hnd as (Hnd & Hnl & _).
  destruct (links_lookup _ _ _ _ Hn) as (b & Hb & Hpb & Hxb).
  unfold queue_pop, queue_frame, mbind, M_bind. rewrite last_snoc.
  rewrite length_app; simpl length.
  destruct l as [|h l].
  - simpl in Hpb, Hxb. exec. eexists. split; [reflexivity|]. fin.
  - destruct (last_cons_is_Some h l) as [p Hp].
    assert (Hpin : p ∈ h :: l) by (by apply last_Some_elem_of).
    destruct (chain_lookup _ _ _ _ _ Hch Hpin) as [[a x] Hlp].
    destruct (links_lookup _ _ _ _ Hlp) as (bp & Hbp & Hpp & Hxp).
    rewrite last_or_None, Hp in Hpb.
    assert (h ≠ n) by (intros ->; eapply Hnl; [left|by left]).
    exec. eexists. split; [reflexivity|]. views. split_and!; try done; try lia.
    rewrite Hpp. eapply chain_set_last; eauto.
Qed.

Lemma queue_remove_spec st l1 n l2 :
  head st = first_or None (l1 ++ n :: l2) → tail st = last (l1 ++ n :: l2) →
  device_count st = Z.of_nat (length (l1 ++ n :: l2)) →
  (length (l1 ++ n :: l2) ≤ 32)%nat →
  chain (links (pool_blocks st)) None (l1 ++ n :: l2) None →
  NoDup (l1 ++ n :: l2) →
  ∃ st', queue_remove (Some n) st = Ok (tt, st') ∧
         head st' = first_or None (l1 ++ l2) ∧ tail st' = last (l1 ++ l2) ∧
         device_count st' = Z.of_nat (length (l1 ++ l2)) ∧
         chain (links (pool_blocks st')) None (l1 ++ l2) None ∧
         queue_frame st st'.
Proof.
  destruct st as [hdr bs c hd tl out]; simpl. intros -> -> -> Hlen Hch Hnd.
  apply chain_app in Hch as [Hch1 [Hn Hch2]].
  apply NoDup_app in Hnd as (Hnd1 & Hnl & [Hn2 Hnd2]%NoDup_cons).
  assert (Hn1 : n ∉ l1) by (intros ?; eapply Hnl; [done|left]).
  destruct (links_lookup _ _ _ _ Hn) as (b & Hb & Hpb & Hxb).
  unfold queue_remove, queue_frame, mbind, M_bind.
  rewrite last_app_cons, !length_app in *. simpl length in *.
  setoid_rewrite chain_app.
  destruct l1 as [|h l1]; destruct l2 as [|x l2]; simpl in Hpb, Hxb.
  - exec. eexists. split; [reflexivity|]. fin.
  - destruct (last_cons_is_Some x l2) as [t Ht].
    assert (t ≠ n) by (intros ->; by apply last_Some_elem_of in Ht).
    apply not_elem_of_cons in Hn2 as [Hnx Hn2].
    destruct Hch2 as [Hx Hch2].
    destruct (links_lookup _ _ _ _ Hx) as (bx & Hbx & Hpx & Hxx).
    rewrite last_cons_cons, Ht.
    exec. eexists. split; [reflexivity|]. fin.
    apply NoDup_cons in Hnd2 as [? ?].
    do 3 (apply chain_insert; [done|]). done.
  - destruct (last_cons_is_Some h l1) as [p Hp].
    assert (Hpin : p ∈ h :: l1) by (by apply last_Some_elem_of).
    assert (p ≠ n) by (by intros ->).
    assert (h ≠ n) by (intros ->; apply Hn1; left).
    destruct (chain_lookup _ _ _ _ _ Hch1 Hpin) as [[a y] Hlp].
    destruct (links_lookup _ _ _ _ Hlp) as (bp & Hbp & Hpp & Hxp).
    unfold last_or in Hpb, Hn. rewrite Hp in Hpb, Hn.
    exec. eexists. split; [reflexivity|]. views.
    rewrite app_nil_r, last_or_None, Hp. split_and!; try done; try (simpl; lia).
    rewrite Hpp. do 2 (apply chain_insert; [done|]).
    eapply chain_set_last; eauto.
  - destruct (last_cons_is_Some h l1) as [p Hp].
    assert (Hpin : p ∈ h :: l1) by (by apply last_Some_elem_of).
    assert (p ≠ n) by (by intros ->).
    assert (h ≠ n) by (intros ->; apply Hn1; left).
    destruct (chain_lookup _ _ _ _ _ Hch1 Hpin) as [[a y] Hlp].
    destruct (links_lookup _ _ _ _ Hlp) as (bp & Hbp & Hpp & Hxp).
    unfold last_or in Hpb, Hn. rewrite Hp in Hpb, Hn.
    destruct (last_cons_is_Some x l2) as [t Ht].
    assert (t ≠ n) by (intros ->; by apply last_Some_elem_of in Ht).
    assert (p ≠ x) by (intros ->; eapply Hnl; [done|right; left]).
    apply not_elem_of_cons in Hn2 as [Hnx Hn2].
    destruct Hch2 as [Hx Hch2].
    destruct (links_lookup _ _ _ _ Hx) as (bx & Hbx & Hpx & Hxx).
    apply NoDup_cons in Hnd2 as [Hx2 Hnd2].
    assert (x ∉ h :: l1) by (intros ?; eapply Hnl; [done|right; left]).
    assert (p ∉ l2) by (intros ?; eapply Hnl; [done|by do 2 right]).
    rewrite last_cons_cons, Ht.
    exec. eexists. split; [reflexivity|]. views.
    change (h :: l1 ++ x :: l2) with ((h :: l1) ++ x :: l2).
    rewrite last_app_cons, Ht. unfold last_or. rewrite Hp.
    split_and!; try done; try (simpl; lia); try (look; done).
    + do 3 (apply chain_insert; [done|]). rewrite Hpp.
      eapply chain_set_last; eauto.
    + assert (n ∉ x :: l2) by (by apply not_elem_of_cons).
      do 2 (apply chain_insert; [done|]). rewrite Hxx.
      eapply (chain_set_first _ (Some n)); [|done|].
      * apply chain_insert; [by apply not_elem_of_cons|]. by split.
      * by rewrite list_lookup_insert_ne.
Qed.

(** ** The search of a duplicate *)

Lemma entry_at_pays bs n b : bs !! n = Some b → entry_at (pays bs) n = entry_of b.
Proof. intros Hb. unfold entry_at, pays. by rewrite list_lookup_fmap, Hb. Qed.

Lemma frees_lookup bs n p :
  frees bs !! n = Some p → ∃ b, bs !! n = Some b ∧ nextfree b = p.
Proof.
  unfold frees. rewrite list_lookup_fmap. destruct (bs !! n) as [b|]; [|done].
  simpl. intros [= <-]. eauto.
Qed.

Lemma find_duplicate_loop_spec fuel data st pv ns :
  chain (links (pool_blocks st)) pv ns None → (length ns ≤ fuel)%nat →
  ∃ r, find_duplicate_loop fuel data (first_or None ns) st = Ok (r, st) ∧
       found (pays (pool_blocks st)) (device_id data) ns r.
Proof.
  revert fuel pv. induction ns as [|n ns IH]; intros fuel pv Hch Hf.
  - exists None. split; [by destruct fuel|]. by constructor.
  - destruct fuel as [|fuel]; [simpl in Hf; lia|].
    destruct Hch as [Hn Hch].
    destruct (links_lookup _ _ _ _ Hn) as (b & Hb & Hpb & Hxb).
    simpl. unfold mbind, M_bind, load. rewrite Hb.
    assert (Hid : id_at (pays (pool_blocks st)) n = device_id (adv (mem b))).
    { unfold id_at. by rewrite (entry_at_pays _ _ _ Hb). }
    destruct (Z.eqb_spec (device_id (adv (mem b))) (device_id data)) as [Heq|Hne].
    + exists (Some n). split; [done|].
      apply (found_some _ _ _ [] n ns); [done|congruence|constructor].
    + rewrite Hxb.
      destruct (IH fuel (Some n) Hch) as (r & Hr & Hfound); [simpl in Hf; lia|].
      exists r. split; [done|].
      destruct Hfound as [Hall|l1 m l2 -> Hm Hall].
      * constructor. constructor; [congruence|done].
      * apply (found_some _ _ _ (n :: l1) m l2); [done|done|].
        constructor; [congruence|done].
Qed.

Lemma find_duplicate_spec fuel data st ns :
  head st = first_or None ns →
  chain (links (pool_blocks st)) None ns None → (length ns ≤ fuel)%nat →
  ∃ r, find_duplicate fuel data st = Ok (r, st) ∧
       found (pays (pool_blocks st)) (device_id data) ns r.
Proof.
  intros Hhd Hch Hf. unfold find_duplicate, mbind, M_bind, get. rewrite Hhd.
  by eapply find_duplicate_loop_spec.
Qed.

(** ** The pool *)

Lemma pool_alloc_spec st sz n fl :
  fp_nextfree (pool_header st) = Some n →
  free_chain (frees (pool_blocks st)) (n :: fl) → n ∉ fl →
  ∃ st', pool_alloc sz st = Ok (Some n, st') ∧
         fp_nextfree (pool_header st') = first_or None fl ∧
         free_chain (frees (pool_blocks st')) fl ∧
         frees (pool_blocks st') !! n = Some None ∧
         (∀ m, m ≠ n → frees (pool_blocks st') !! m = frees (pool_blocks st) !! m) ∧
         pool_frame st st'.
Proof.
  destruct st as [[top bsz bct] bs c hd tl out]; simpl. intros -> [Hn Hfl] Hnin.
  destruct (frees_lookup _ _ _ Hn) as (b & Hb & Hnf).
  unfold pool_alloc, pool_frame, mbind, M_bind.
  exec. eexists. split; [reflexivity|]. views.
  split_and!; try done.
  - by apply free_chain_insert.
  - look. done.
  - intros m Hm. by rewrite list_lookup_insert_ne.
Qed.

Lemma pool_alloc_empty st sz :
  fp_nextfree (pool_header st) = None → pool_alloc sz st = Ok (None, st).
Proof. destruct st as [[top bsz bct] bs c hd tl out]; simpl. by intros ->. Qed.

(** ** Writes to the advertisement and its time *)

Lemma store_payload_spec st n f g :
  (∀ b, entry_of (with_mem f b) = g (entry_of b)) →
  (∀ b, link_of (with_mem f b) = link_of b) →
  (n < length (pool_blocks st))%nat →
  ∃ st', store (Some n) (with_mem f) st = Ok (tt, st') ∧
         pays (pool_blocks st') =
           <[n:=g (entry_at (pays (pool_blocks st)) n)]> (pays (pool_blocks st)) ∧
         store_frame st st'.
Proof.
  destruct st as [hdr bs c hd tl out]; simpl. intros Hg Hl Hlt.
  destruct (lookup_lt_is_Some_2 bs n Hlt) as [b Hb].
  unfold store_frame. rewrite Hb. eexists. split; [reflexivity|]. simpl.
  split_and!; try done.
  - unfold pays. rewrite list_fmap_insert, Hg. by rewrite <- (entry_at_pays _ _ _ Hb).
  - unfold links. eapply fmap_insert_same; eauto.
  - unfold frees. eapply fmap_insert_same; eauto.
Qed.

(** ** One advertisement *)

Lemma bind_ok {A B} (m : M A) (f : A → M B) st a st' :
  m st = Ok (a, st') → (m ≫= f) st = f a st'.
Proof. intros H. unfold mbind, M_bind. by rewrite H. Qed.

Lemma large_count_loop_skip fuel st :
  device_count st ≤ 32 → large_count_loop fuel st = Ok (tt, st).
Proof.
  intros H. destruct fuel; simpl; unfold mbind, M_bind, get;
    by rewrite (proj2 (Z.ltb_ge _ _)) by lia.
Qed.

Lemma frees_length bs bs' : frees bs' = frees bs → length bs' = length bs.
Proof. intros H. apply (f_equal length) in H. unfold frees in H. by rewrite !length_fmap in H. Qed.

Lemma links_lt bs n : is_Some (links bs !! n) → (n < length bs)%nat.
Proof. intros H%lookup_lt_is_Some. unfold links in H. by rewrite length_fmap in H. Qed.

Lemma frees_lt bs n : is_Some (frees bs !! n) → (n < length bs)%nat.
Proof. intros H%lookup_lt_is_Some. unfold frees in H. by rewrite length_fmap in H. Qed.

Lemma fresh_entries P id ns :
  Forall (λ n, id_at P n ≠ id) ns → fresh id (entries P ns).
Proof. intros H. unfold fresh, entries. by apply Forall_fmap. Qed.

Lemma entry_at_insert P n x : (n < length P)%nat → entry_at (<[n:=x]> P) n = x.
Proof. intros H. unfold entry_at. by rewrite list_lookup_insert_eq. Qed.

Lemma pays_lt bs n : (n < length bs)%nat → (n < length (pays bs))%nat.
Proof. unfold pays. by rewrite length_fmap. Qed.

Lemma on_discovery_spec_strong fuel data ts st ns fl :
  inv st ns fl → (32 ≤ fuel)%nat →
  ∃ st' ns' fl',
    on_discovery fuel data ts st = Ok (tt, st') ∧ inv st' ns' fl' ∧
    step data ts (entries (pays (pool_blocks st)) ns)
                 (entries (pays (pool_blocks st')) ns') ∧
    stdout st' = stdout st ∧
    ((∀ m, m ∈ ns → frees (pool_blocks st) !! m = Some None) →
     ∀ m, m ∈ ns' → frees (pool_blocks st') !! m = Some None).
Proof.
  intros [Hhd Htl Hc Hch Htop Hfl Hnd Hsz] Hfuel.
  assert (Hlen : (length ns ≤ 32)%nat) by lia.
  destruct (find_duplicate_spec fuel data st ns Hhd Hch) as (r & Hr & Hfound);
    [lia|].
  unfold on_discovery. rewrite (bind_ok _ _ _ _ _ Hr).
  destruct Hfound as [Hall|l1 n l2 -> Hn Hall].
  - (* a new device *)
    rewrite (bind_ok _ _ _ _ _ (large_count_loop_skip fuel st ltac:(lia))).
    rewrite (bind_ok (get device_count) _ st (device_count st) st) by done.
    destruct (Z.eqb_spec (device_count st) 32) as [Hfull|Hroom].
    + (* the queue is full: the node at the tail is used again *)
      assert (Hfull' : length ns = 32%nat) by lia.
      destruct ns as [|n0 ns0] using rev_ind; [done|]. clear IHns0.
      rename ns0 into l, n0 into n.
      assert (Hnd' := Hnd). apply NoDup_app in Hnd' as (Hndq & Hdisj & Hndf).
      destruct (queue_pop_spec st l n Hhd Htl Hc Hlen Hch Hndq)
        as (st1 & E1 & Hhd1 & Htl1 & Hc1 & Hch1 & Hh1 & Ho1 & Hf1 & Hp1).
      rewrite (bind_ok _ _ _ _ _ E1).
      assert (Hlt : (n < length (pool_blocks st))%nat).
      { apply links_lt. eapply chain_lookup; [done|].
        apply elem_of_app. right. left. }
      apply NoDup_app in Hndq as (Hndl & Hnl & _).
      assert (Hnin : n ∉ l) by (intros ?; eapply Hnl; [done|left]).
      destruct (store_payload_spec st1 n (with_adv data) (λ e, (data, e.2)))
        as (st2 & E2 & Hp2 & Hh2 & Hhd2 & Htl2 & Hc2 & Ho2 & Hl2 & Hf2);
        [done|done|by rewrite (frees_length _ _ Hf1)|].
      rewrite (bind_ok _ _ _ _ _ E2).
      destruct (store_payload_spec st2 n (with_time ts) (λ e, (e.1, ts)))
        as (st3 & E3 & Hp3 & Hh3 & Hhd3 & Htl3 & Hc3 & Ho3 & Hl3 & Hf3);
        [done|done|by rewrite (frees_length _ _ Hf2), (frees_length _ _ Hf1)|].
      rewrite (bind_ok _ _ _ _ _ E3).
      rewrite length_app in Hlen, Hfull'. simpl in Hlen, Hfull'.
      destruct (queue_push_spec st3 n l) as
        (st4 & E4 & Hhd4 & Htl4 & Hc4 & Hch4 & Hh4 & Ho4 & Hf4 & Hp4);
        [congruence|congruence|congruence|lia|congruence|done|done| |].
      { by rewrite (frees_length _ _ Hf3), (frees_length _ _ Hf2),
          (frees_length _ _ Hf1). }
      exists st4, (n :: l), fl. split; [done|].
      split_and!; try congruence.
      * constructor; simpl first_or; try congruence.
        -- change ((n :: l) ++ fl) with (n :: l ++ fl).
           rewrite (Permutation_middle l fl n). by rewrite <- app_assoc in Hnd.
        -- rewrite <- Hsz. simpl. rewrite !length_app. simpl. lia.
      * rewrite Hp4, Hp3, Hp2, Hp1.
        set (P := pays (pool_blocks st)) in *.
        assert (HP : (n < length P)%nat) by (by apply pays_lt).
        rewrite entry_at_insert by done. rewrite list_insert_insert_eq.
        unfold entries at 2. rewrite fmap_cons.
        rewrite entry_at_insert by done. simpl.
        change (entry_at _ <$> l) with (entries (<[n:=(data, ts)]> P) l).
        rewrite entries_insert by done.
        unfold entries. rewrite fmap_app. simpl.
        apply step_evict.
        -- apply fresh_entries in Hall. unfold entries in Hall.
           by rewrite fmap_app in Hall.
        -- rewrite length_app, length_fmap. simpl. lia.
      * intros Ha m Hm. rewrite Hf4, Hf3, Hf2, Hf1. apply Ha.
        apply elem_of_app. apply elem_of_cons in Hm as [->|Hm]; [right; left|by left].
    + (* room is left: a block is taken from the pool *)
      assert (Hroom' : (length ns < 32)%nat) by lia.
      destruct fl as [|n fl]; [simpl in Hsz; lia|].
      assert (Hnd' := Hnd). apply NoDup_app in Hnd' as (Hndq & Hdisj & [Hnfl Hndf]%NoDup_cons).
      assert (Hnin : n ∉ ns) by (intros ?; eapply Hdisj; [done|left]).
      destruct (pool_alloc_spec st sizeof_device_t n fl Htop Hfl Hnfl)
        as (st1 & E1 & Htop1 & Hfl1 & Hn1 & Hother1 & Hhd1 & Htl1 & Hc1 & Ho1 & Hl1 & Hp1).
      rewrite (bind_ok _ _ _ _ _ E1).
      assert (Hlt : (n < length (pool_blocks st1))%nat).
      { rewrite <- (length_fmap link_of). fold (links (pool_blocks st1)).
        rewrite Hl1. unfold links. rewrite length_fmap.
        apply frees_lt. eapply free_chain_lookup; [done|left]. }
      destruct (store_payload_spec st1 n (with_adv data) (λ e, (data, e.2)))
        as (st2 & E2 & Hp2 & Hh2 & Hhd2 & Htl2 & Hc2 & Ho2 & Hl2 & Hf2);
        [done|done|done|].
      rewrite (bind_ok _ _ _ _ _ E2).
      destruct (store_payload_spec st2 n (with_time ts) (λ e, (e.1, ts)))
        as (st3 & E3 & Hp3 & Hh3 & Hhd3 & Htl3 & Hc3 & Ho3 & Hl3 & Hf3);
        [done|done|by rewrite (frees_length _ _ Hf2)|].
      rewrite (bind_ok _ _ _ _ _ E3).
      destruct (queue_push_spec st3 n ns) as
        (st4 & E4 & Hhd4 & Htl4 & Hc4 & Hch4 & Hh4 & Ho4 & Hf4 & Hp4);
        [congruence|congruence|congruence|lia|congruence|done|done| |].
      { by rewrite (frees_length _ _ Hf3), (frees_length _ _ Hf2). }
      exists st4, (n :: ns), fl. split; [done|].
      split_and!; try congruence.
      * constructor; simpl first_or; try congruence.
        -- change ((n :: ns) ++ fl) with (n :: ns ++ fl).
           by rewrite (Permutation_middle ns fl n).
        -- rewrite <- Hsz. simpl. lia.
      * rewrite Hp4, Hp3, Hp2, Hp1.
        set (P := pays (pool_blocks st)) in *.
        assert (HP : (n < length P)%nat).
        { rewrite <- Hp1. by apply pays_lt. }
        rewrite entry_at_insert by done. rewrite list_insert_insert_eq.
        unfold entries at 2. rewrite fmap_cons.
        rewrite entry_at_insert by done. simpl.
        change (entry_at _ <$> ns) with (entries (<[n:=(data, ts)]> P) ns).
        rewrite entries_insert by done.
        apply step_insert; [by apply fresh_entries|].
        unfold entries. by rewrite length_fmap.
      * intros Ha m Hm. rewrite Hf4, Hf3, Hf2.
        apply elem_of_cons in Hm as [->|Hm]; [done|].
        rewrite Hother1; [by apply Ha|]. by intros ->.
  - (* a device already in the queue *)
    assert (Hnd' := Hnd). apply NoDup_app in Hnd' as (Hndq & Hdisj & Hndf).
    destruct (queue_remove_spec st l1 n l2 Hhd Htl Hc Hlen Hch Hndq)
      as (st1 & E1 & Hhd1 & Htl1 & Hc1 & Hch1 & Hh1 & Ho1 & Hf1 & Hp1).
    rewrite (bind_ok _ _ _ _ _ E1).
    assert (Hnin : n ∉ l1 ++ l2).
    { apply NoDup_app in Hndq as (_ & Hn1 & [Hn2 _]%NoDup_cons).
      intros [?|?]%elem_of_app; [|done]. eapply Hn1; [done|left]. }
    assert (Hlt : (n < length (pool_blocks st))%nat).
    { apply links_lt. eapply chain_lookup; [done|].
      apply elem_of_app. right. left. }
    assert (Hndq1 : NoDup (l1 ++ l2)).
    { apply NoDup_app in Hndq as (? & Hn1 & [_ ?]%NoDup_cons).
      apply NoDup_app. split_and!; [done| |done].
      intros x Hx1 Hx2. eapply Hn1; [done|by right]. }
    rewrite length_app in Hlen. simpl in Hlen.
    destruct (queue_push_spec st1 n (l1 ++ l2) Hhd1 Htl1 Hc1) as
      (st2 & E2 & Hhd2 & Htl2 & Hc2 & Hch2 & Hh2 & Ho2 & Hf2 & Hp2);
      [rewrite length_app; lia|done|done|done|by rewrite (frees_length _ _ Hf1)|].
    rewrite (bind_ok _ _ _ _ _ E2).
    destruct (store_payload_spec st2 n (with_rssi (rssi data))
                (λ e, (set_rssi (rssi data) e.1, e.2)))
      as (st3 & E3 & Hp3 & Hh3 & Hhd3 & Htl3 & Hc3 & Ho3 & Hl3 & Hf3);
      [done|done|by rewrite (frees_length _ _ Hf2), (frees_length _ _ Hf1)|].
    rewrite (bind_ok _ _ _ _ _ E3).
    destruct (store_payload_spec st3 n (with_time ts) (λ e, (e.1, ts)))
      as (st4 & E4 & Hp4 & Hh4 & Hhd4 & Htl4 & Hc4 & Ho4 & Hl4 & Hf4);
      [done|done|
       by rewrite (frees_length _ _ Hf3), (frees_length _ _ Hf2), (frees_length _ _ Hf1)|].
    exists st4, (n :: l1 ++ l2), fl. split; [done|].
    split_and!; try congruence.
    + constructor; simpl first_or; try congruence.
      * change ((n :: l1 ++ l2) ++ fl) with (n :: (l1 ++ l2) ++ fl).
        rewrite <- app_assoc. rewrite (Permutation_middle l1 (l2 ++ fl) n).
        by rewrite <- app_assoc in Hnd.
      * rewrite <- Hsz. simpl. rewrite !length_app. simpl. lia.
    + rewrite Hp4, Hp3, Hp2, Hp1.
      set (P := pays (pool_blocks st)) in *.
      assert (HP : (n < length P)%nat) by (by apply pays_lt).
      rewrite entry_at_insert by done. rewrite list_insert_insert_eq.
      unfold entries at 2. rewrite fmap_cons.
      rewrite entry_at_insert by done.
      change (entry_at _ <$> l1 ++ l2)
        with (entries (<[n:=(set_rssi (rssi data) (entry_at P n).1, ts)]> P) (l1 ++ l2)).
      rewrite entries_insert by done.
      unfold entries. rewrite !fmap_app, fmap_cons.
      destruct (entry_at P n) as [a t] eqn:Ea. simpl.
      apply step_merge.
      * unfold id_at in Hn. by rewrite Ea in Hn.
      * by apply fresh_entries.
    + intros Ha m Hm. rewrite Hf4, Hf3, Hf2, Hf1. apply Ha.
      apply elem_of_cons in Hm as [->|Hm].
      * apply elem_of_app. right. left.
      * apply elem_of_app in Hm as [Hm|Hm]; apply elem_of_app; [by left|by do 2 right].
Qed.

Lemma on_discovery_spec fuel data ts st ns fl :
  inv st ns fl → (32 ≤ fuel)%nat →
  ∃ st' ns' fl',
    on_discovery fuel data ts st = Ok (tt, st') ∧ inv st' ns' fl' ∧
    step data ts (entries (pays (pool_blocks st)) ns)
                 (entries (pays (pool_blocks st')) ns') ∧
    stdout st' = stdout st.
Proof.
  intros Hinv Hfuel.
  destruct (on_discovery_spec_strong fuel data ts st ns fl Hinv Hfuel)
    as (st' & ns' & fl' & H1 & H2 & H3 & H4 & _).
  exists st', ns', fl'. split_and!; assumption.
Qed.

(** ** Runs of advertisements *)

Lemma discover_spec fuel events st ns fl :
  inv st ns fl → (32 ≤ fuel)%nat →
  ∃ st' ns' fl',
    discover fuel events st = Ok (tt, st') ∧ inv st' ns' fl' ∧
    steps events (entries (pays (pool_blocks st)) ns)
                 (entries (pays (pool_blocks st')) ns') ∧
    stdout st' = stdout st.
Proof.
  intros Hinv Hfuel. revert st ns fl Hinv.
  induction events as [|[data ts] events IH]; intros st ns fl Hinv.
  - exists st, ns, fl. split_and!; [done|done|constructor|done].
  - destruct (on_discovery_spec fuel data ts st ns fl Hinv Hfuel)
      as (st1 & ns1 & fl1 & E1 & Hinv1 & Hstep & Hout1).
    destruct (IH st1 ns1 fl1 Hinv1) as (st2 & ns2 & fl2 & E2 & Hinv2 & Hsteps & Hout2).
    exists st2, ns2, fl2. simpl. rewrite (bind_ok _ _ _ _ _ E1).
    split_and!; [done|done| |congruence].
    by econstructor.
Qed.

Lemma pool_init_boot : pool_init sizeof_device_t 32 boot = Ok (tt, ready).
Proof. reflexivity. Qed.

Lemma inv_ready : inv ready [] (seq 0 32).
Proof.
  constructor; try reflexivity; try done.
  apply (NoDup_seq 0 32).
Qed.

Lemma run_spec fuel events :
  (32 ≤ fuel)%nat →
  ∃ st ns fl,
    run fuel events boot = Ok (tt, st) ∧ inv st ns fl ∧
    steps events [] (entries (pays (pool_blocks st)) ns) ∧
    stdout st = [].
Proof.
  intros Hfuel.
  destruct (discover_spec fuel events ready [] (seq 0 32) inv_ready Hfuel)
    as (st & ns & fl & E & Hinv & Hsteps & Hout).
  exists st, ns, fl. unfold run. rewrite (bind_ok _ _ _ _ _ pool_init_boot).
  done.
Qed.

(** ** The traversal of the queue *)

Lemma live_entries_loop_spec fuel st pv ns :
  chain (links (pool_blocks st)) pv ns None → (length ns ≤ fuel)%nat →
  live_entries_loop fuel (first_or None ns) st =
    Ok (entries (pays (pool_blocks st)) ns, st).
Proof.
  revert fuel pv. induction ns as [|n ns IH]; intros fuel pv Hch Hf.
  - by destruct fuel.
  - destruct fuel as [|fuel]; [simpl in Hf; lia|].
    destruct Hch as [Hn Hch].
    destruct (links_lookup _ _ _ _ Hn) as (b & Hb & Hpb & Hxb).
    simpl. unfold mbind, M_bind, load. rewrite Hb, Hxb.
    rewrite (IH fuel (Some n) Hch) by (simpl in Hf; lia).
    simpl. by rewrite (entry_at_pays _ _ _ Hb).
Qed.

Lemma live_entries_spec fuel st ns fl :
  inv st ns fl → (32 ≤ fuel)%nat →
  live_entries fuel st = Ok (entries (pays (pool_blocks st)) ns, st).
Proof.
  intros [Hhd Htl Hc Hch Htop Hfl Hnd Hsz] Hfuel.
  unfold live_entries, mbind, M_bind, get. rewrite Hhd.
  eapply live_entries_loop_spec; [done|lia].
Qed.

Lemma emit_emit l1 l2 st : emit l2 (emit l1 st) = emit (l1 ++ l2) st.
Proof. unfold emit. simpl. by rewrite <- app_assoc. Qed.

Lemma emit_nil st : emit [] st = st.
Proof. destruct st. unfold emit. simpl. by rewrite app_nil_r. Qed.

Lemma print_queue_by_time_loop_spec fuel st pv ns :
  chain (links (pool_blocks st)) pv ns None → (length ns ≤ fuel)%nat →
  print_queue_by_time_loop fuel (first_or None ns) st =
    Ok (tt, emit (row_of_entry <$> entries (pays (pool_blocks st)) ns) st).
Proof.
  revert fuel pv st. induction ns as [|n ns IH]; intros fuel pv st Hch Hf.
  - destruct fuel; simpl; by rewrite emit_nil.
  - destruct fuel as [|fuel]; [simpl in Hf; lia|].
    destruct Hch as [Hn Hch].
    destruct (links_lookup _ _ _ _ Hn) as (b & Hb & Hpb & Hxb).
    simpl. unfold mbind, M_bind, load. rewrite Hb, Hxb. simpl.
    rewrite (IH fuel (Some n)); [|done|simpl in Hf; lia].
    rewrite emit_emit. simpl. by rewrite (entry_at_pays _ _ _ Hb).
Qed.

Lemma print_queue_by_time_spec fuel st ns fl :
  inv st ns fl → (32 ≤ fuel)%nat →
  print_queue_by_time fuel st =
    Ok (tt, emit (hdr_by_time :: (row_of_entry <$> entries (pays (pool_blocks st)) ns)) st).
Proof.
  intros [Hhd Htl Hc Hch Htop Hfl Hnd Hsz] Hfuel.
  unfold print_queue_by_time, mbind, M_bind, get, printf, modify. simpl.
  rewrite Hhd.
  rewrite (print_queue_by_time_loop_spec fuel _ None ns); [|done|lia].
  by rewrite emit_emit.
Qed.

(** ** The queue holds the 32 most recently seen devices *)

Lemma filter_ne_id (x : Z) (l : list Z) : x ∉ l → filter (λ y, y ≠ x) l = l.
Proof.
  induction l as [|y l IH]; [done|].
  intros [Hne Hnin]%not_elem_of_cons.
  rewrite filter_cons_True by done. by rewrite IH.
Qed.

Lemma remove_dups_snoc (l : list Z) x :
  remove_dups (l ++ [x]) = filter (λ y, y ≠ x) (remove_dups l) ++ [x].
Proof.
  induction l as [|y l IH]; [done|].
  simpl. destruct (decide_rel elem_of y (l ++ [x])) as [Hin|Hnin];
    destruct (decide_rel elem_of y l) as [Hin'|Hnin']; rewrite IH.
  - done.
  - apply elem_of_app in Hin as [?|Hx%list_elem_of_singleton]; [done|]. subst y.
    by rewrite filter_cons_False by (by intros ?).
  - destruct Hnin. apply elem_of_app. by left.
  - rewrite filter_cons_True; [done|].
    intros ->. apply Hnin. apply elem_of_app. right. left.
Qed.

Lemma recency_snoc l x : recency (l ++ [x]) = x :: filter (λ y, y ≠ x) (recency l).
Proof. unfold recency. by rewrite remove_dups_snoc, reverse_snoc, filter_reverse. Qed.

Lemma NoDup_recency l : NoDup (recency l).
Proof. unfold recency. rewrite reverse_Permutation. apply NoDup_remove_dups. Qed.

Lemma fresh_ids id es : fresh id es ↔ id ∉ ids es.
Proof.
  unfold fresh, ids. rewrite Forall_forall, list_elem_of_fmap. split.
  - intros H (e & -> & He). by eapply H.
  - intros H e He Heq. apply H. by exists e.
Qed.

Lemma ids_app es1 es2 : ids (es1 ++ es2) = ids es1 ++ ids es2.
Proof. apply fmap_app. Qed.

Lemma length_ids es : length (ids es) = length es.
Proof. apply length_fmap. Qed.

Lemma step_tracks seen data ts es es' :
  tracks seen es → step data ts es es' → tracks (seen ++ [device_id data]) es'.
Proof.
  unfold tracks. intros Hes Hstep. rewrite recency_snoc.
  set (x := device_id data) in *. set (R := recency seen) in *.
  assert (HR : NoDup R) by apply NoDup_recency.
  change (take 32 (x :: ?l)) with (x :: take 31 l).
  rewrite <- (take_drop 32 R) in HR |- *. rewrite <- Hes in HR |- *.
  assert (Hlen : length es = (32 `min` length R)%nat).
  { by rewrite <- length_ids, Hes, length_take. }
  assert (HD : (length es < 32)%nat → drop 32 R = []).
  { intros ?. apply drop_ge. lia. }
  destruct Hstep as [l1 a t l2 Ha Hfresh|es Hfresh Hlt|es e Hfresh Hfull].
  - rewrite !ids_app in HR |- *. change (ids ((a, t) :: l2)) with (device_id a :: ids l2) in *.
    rewrite Ha in *. fold x in HR |- *.
    rewrite length_app in Hlen, HD. cbn [length] in Hlen, HD.
    rewrite <- app_assoc in HR.
    apply NoDup_app in HR as (_ & _ & [Hx2 _]%NoDup_cons).
    apply fresh_ids in Hfresh. apply not_elem_of_app in Hx2 as [Hx2 HxD].
    rewrite !filter_app, filter_cons_False by (by intros ?).
    rewrite !filter_ne_id by done.
    simpl. f_equal; [done|]. rewrite ids_app.
    destruct (decide (length l1 + length l2 < 31)%nat).
    + rewrite HD, app_nil_r by lia. symmetry. apply take_ge.
      rewrite length_app, !length_ids. lia.
    + symmetry. apply take_app_length'. rewrite length_app, !length_ids. lia.
  - apply fresh_ids in Hfresh. rewrite HD, app_nil_r by done.
    rewrite filter_ne_id by done. simpl. f_equal.
    symmetry. apply take_ge. rewrite length_ids. lia.
  - apply fresh_ids in Hfresh.
    rewrite filter_app, filter_ne_id by done.
    rewrite ids_app, <- app_assoc. simpl. f_equal.
    symmetry. apply take_app_length'.
    rewrite length_app in Hfull, Hlen. cbn [length] in Hfull, Hlen.
    rewrite length_ids. lia.
Qed.

Lemma steps_tracks seen events es es' :
  tracks seen es → steps events es es' → tracks (seen ++ ids events) es'.
Proof.
  intros Hes Hsteps. revert seen Hes.
  induction Hsteps as [es|data ts events es1 es2 es3 Hstep Hsteps IH]; intros seen Hes.
  - by rewrite app_nil_r.
  - change (ids ((data, ts) :: events)) with ([device_id data] ++ ids events).
    rewrite app_assoc. apply IH.
    by eapply step_tracks.
Qed.

Lemma steps_recency events es :
  steps events [] es → ids es = take 32 (recency (ids events)).
Proof. intros H. by apply (steps_tracks [] events [] es). Qed.

(** ** The queue after a run *)

Lemma run_live fuel events :
  (32 ≤ fuel)%nat →
  ∃ st ns fl es,
    run fuel events boot = Ok (tt, st) ∧ inv st ns fl ∧
    es = entries (pays (pool_blocks st)) ns ∧
    live_entries fuel st = Ok (es, st) ∧
    ids es = take 32 (recency (ids events)) ∧
    device_count st = Z.of_nat (length es) ∧ stdout st = [].
Proof.
  intros Hfuel.
  destruct (run_spec fuel events Hfuel) as (st & ns & fl & Hrun & Hinv & Hsteps & Hout).
  exists st, ns, fl, (entries (pays (pool_blocks st)) ns).
  split_and!; [assumption|assumption|reflexivity| | | |assumption].
  - by eapply live_entries_spec.
  - by apply steps_recency.
  - unfold entries. rewrite length_fmap. by destruct Hinv.
Qed.

Lemma NoDup_take_recency l : NoDup (take 32 (recency l)).
Proof. eapply sublist_NoDup; [apply NoDup_recency|apply sublist_take]. Qed.

Lemma step_cases data ts es es' :
  step data ts es es' →
  (device_id data ∈ ids es → ids es' ≡ₚ ids es ∧ length es' = length es) ∧
  (device_id data ∉ ids es → (length es < 32)%nat → es' = (data, ts) :: es) ∧
  (device_id data ∉ ids es → length es = 32%nat →
   ∃ l e, es = l ++ [e] ∧ es' = (data, ts) :: l).
Proof.
  intros [l1 a t l2 Ha Hfresh|es0 Hfresh Hlt|es0 e Hfresh Hfull].
  - assert (Hin : device_id data ∈ ids (l1 ++ (a, t) :: l2)).
    { rewrite ids_app. apply elem_of_app. right. rewrite <- Ha. left. }
    split_and!; try done.
    intros _. split.
    + unfold ids. rewrite fmap_cons, !fmap_app, fmap_cons. simpl.
      apply Permutation_middle.
    + simpl. rewrite !length_app. simpl. lia.
  - apply fresh_ids in Hfresh. split_and!; try done. intros _ ?. lia.
  - apply fresh_ids in Hfresh. split_and!; try done.
    + intros _ ?. lia.
    + intros _ _. by exists es0, e.
Qed.

Lemma split_unique (l1 l1' l2 l2' : list entry) e e' :
  NoDup (ids (l1 ++ e :: l2)) → l1 ++ e :: l2 = l1' ++ e' :: l2' →
  device_id e.1 = device_id e'.1 → l1 = l1' ∧ e = e' ∧ l2 = l2'.
Proof.
  revert l1'. induction l1 as [|x l1 IH]; intros l1' Hnd Heq Hid.
  - destruct l1' as [|x' l1']; simpl in Heq.
    + by injection Heq as -> ->.
    + injection Heq as -> ->. exfalso.
      apply NoDup_cons in Hnd as [Hnin _]. apply Hnin.
      rewrite ids_app. apply elem_of_app. right. simpl. rewrite Hid. left.
  - destruct l1' as [|x' l1']; simpl in Heq.
    + injection Heq as -> <-. exfalso.
      apply NoDup_cons in Hnd as [Hnin _]. apply Hnin.
      rewrite ids_app. apply elem_of_app. right. simpl. rewrite <- Hid. left.
    + injection Heq as -> Heq.
      apply NoDup_cons in Hnd as [_ Hnd].
      destruct (IH l1' Hnd Heq Hid) as (-> & -> & ->). done.
Qed.

Lemma step_merge_inv data ts l1 a t l2 es' :
  step data ts (l1 ++ (a, t) :: l2) es' → NoDup (ids (l1 ++ (a, t) :: l2)) →
  device_id a = device_id data →
  es' = (set_rssi (rssi data) a, ts) :: l1 ++ l2.
Proof.
  intros Hstep Hnd Ha.
  assert (Hin : device_id data ∈ ids (l1 ++ (a, t) :: l2)).
  { rewrite ids_app. apply elem_of_app. right. rewrite <- Ha. left. }
  inversion Hstep as [l1' a' t' l2' Ha' Hfresh Heq|es0 Hfresh Hlt|es0 e Hfresh Hfull Heq].
  - symmetry in Heq.
    destruct (split_unique _ _ _ _ _ _ Hnd Heq) as (-> & [= -> ->] & ->);
      [simpl; congruence|done].
  - by apply fresh_ids in Hfresh.
  - rewrite Heq in Hfresh. by apply fresh_ids in Hfresh.
Qed.

(** ** The pool *)

Lemma to_int_blockcount (N : nat) :
  Z.of_nat N ≤ 2147483648 →
  Z.to_nat (to_int (uint32_wrap (Z.of_nat N - 1)) + 1) = N.
Proof.
  intros H. unfold to_int, uint32_wrap.
  destruct N as [|N]; [reflexivity|].
  rewrite (Z.mod_small (Z.of_nat (S N) - 1)) by lia.
  rewrite Z.mod_small by lia. lia.
Qed.

Lemma pool_init_loop_spec n k st :
  (n + k ≤ length (pool_blocks st))%nat →
  free_chain (frees (pool_blocks st)) (seq n k) →
  ∃ st', pool_init_loop n (first_or None (seq n k)) (first_or None (seq n k)) st
           = Ok (first_or None (seq 0 (n + k)), st') ∧
         free_chain (frees (pool_blocks st')) (seq 0 (n + k)) ∧
         pool_header st' = pool_header st ∧ pool_frame st st'.
Proof.
  revert k st. induction n as [|i IH]; intros k st Hlen Hfl.
  - exists st. simpl. unfold pool_frame. by split_and!.
  - destruct (lookup_lt_is_Some_2 (pool_blocks st) i) as [b Hb]; [lia|].
    simpl. unfold mbind, M_bind, store. rewrite Hb.
    set (st1 := set_blocks _ st).
    destruct (IH (S k) st1) as (st' & E & Hfl' & Hh & Hhd & Htl & Hc & Ho & Hl & Hp).
    { unfold st1. simpl. rewrite length_insert. lia. }
    { unfold st1. simpl. unfold frees. rewrite list_fmap_insert. simpl. split.
      - rewrite list_lookup_insert_eq; [done|]. rewrite length_fmap. lia.
      - apply free_chain_insert; [|done].
        intros Hin%elem_of_seq. lia. }
    simpl in E. rewrite E. exists st'.
    replace (i + S k)%nat with (S (i + k)) in * by lia.
    split; [done|]. split; [exact Hfl'|]. split; [done|].
    unfold pool_frame. split_and!; [done|done|done|done| |].
    + rewrite Hl. unfold st1. simpl. unfold links.
      eapply fmap_insert_same; eauto.
    + rewrite Hp. unfold st1. simpl. unfold pays.
      eapply fmap_insert_same; eauto.
Qed.

Lemma pool_init_spec bsize (N : nat) st :
  (N ≤ length (pool_blocks st))%nat → Z.of_nat N ≤ 2147483648 →
  ∃ st', pool_init bsize (Z.of_nat N) st = Ok (tt, st') ∧
         fp_nextfree (pool_header st') = first_or None (seq 0 N) ∧
         free_chain (frees (pool_blocks st')) (seq 0 N) ∧
         blocksize (pool_header st') = bsize ∧
         blockcount (pool_header st') = Z.of_nat N ∧
         pool_frame st st'.
Proof.
  intros Hlen HN. unfold pool_init, mbind, M_bind, modify, get. simpl.
  rewrite to_int_blockcount by done.
  set (st1 := set_blockcount _ _).
  destruct (pool_init_loop_spec N 0 st1) as (st' & E & Hfl & Hh & Hf); [simpl; lia|done|].
  simpl in E. rewrite E. rewrite Nat.add_0_r in *.
  eexists. split; [reflexivity|]. simpl. rewrite Hh. simpl.
  split_and!; try done.
Qed.

Lemma alloc_loop_spec fl1 fl2 st :
  fp_nextfree (pool_header st) = first_or None (fl1 ++ fl2) →
  free_chain (frees (pool_blocks st)) (fl1 ++ fl2) → NoDup (fl1 ++ fl2) →
  ∃ st', alloc_loop (length fl1) st = Ok (Some <$> fl1, st') ∧
         fp_nextfree (pool_header st') = first_or None fl2 ∧
         free_chain (frees (pool_blocks st')) fl2 ∧
         (∀ n, n ∈ fl1 → frees (pool_blocks st') !! n = Some None) ∧
         (∀ n, n ∉ fl1 → frees (pool_blocks st') !! n = frees (pool_blocks st) !! n) ∧
         pool_frame st st'.
Proof.
  revert st. induction fl1 as [|n fl1 IH]; intros st Htop Hfl Hnd.
  - exists st. simpl. unfold pool_frame. split_and!; try done. by intros n ?%elem_of_nil.
  - simpl in Htop, Hnd. apply NoDup_cons in Hnd as [Hn Hnd].
    destruct (pool_alloc_spec st sizeof_device_t n (fl1 ++ fl2) Htop Hfl Hn)
      as (st1 & E1 & Htop1 & Hfl1 & Hn1 & Hother1 & Hhd1 & Htl1 & Hc1 & Ho1 & Hl1 & Hp1).
    destruct (IH st1 Htop1 Hfl1 Hnd)
      as (st2 & E2 & Htop2 & Hfl2 & Hin2 & Hout2 & Hhd2 & Htl2 & Hc2 & Ho2 & Hl2 & Hp2).
    exists st2. simpl. rewrite (bind_ok _ _ _ _ _ E1), (bind_ok _ _ _ _ _ E2).
    split_and!; try done; try congruence.
    + intros m [->|Hm]%elem_of_cons; [|by apply Hin2].
      rewrite Hout2; [done|]. intros ?. apply Hn. apply elem_of_app. by left.
    + intros m [Hne Hm]%not_elem_of_cons. rewrite Hout2 by done. by apply Hother1.
    + unfold pool_frame. split_and!; congruence.
Qed.

(** ** The order by rssi *)

Section sift.
Context {A : Type} (key : A → Z).

Lemma sift_list_Permutation x racc : sift_list key x racc ≡ₚ x :: racc.
Proof.
  induction racc as [|y r IH]; [done|]. simpl.
  destruct (key y <? key x); [|done].
  rewrite IH. apply Permutation_swap.
Qed.

Lemma sift_list_length x racc : length (sift_list key x racc) = S (length racc).
Proof. by rewrite sift_list_Permutation. Qed.

Lemma sift_list_sorted x racc :
  Sorted (λ a b, key a ≤ key b) racc →
  Sorted (λ a b, key a ≤ key b) (sift_list key x racc).
Proof.
  induction racc as [|y r IH]; intros Hs; simpl.
  - by repeat constructor.
  - destruct (Z.ltb_spec (key y) (key x)) as [Hlt|Hge].
    + apply Sorted_inv in Hs as [Hs Hhd]. constructor; [by apply IH|].
      destruct r as [|z r]; simpl.
      * constructor. lia.
      * destruct (key z <? key x); constructor; [|lia].
        by apply HdRel_inv in Hhd.
    + constructor; [done|]. constructor. lia.
Qed.

Lemma sift_list_stable (v : Z) x racc :
  filter (λ a, key a = v) (sift_list key x racc) =
  filter (λ a, key a = v) (x :: racc).
Proof.
  induction racc as [|y r IH]; [done|]. simpl.
  destruct (Z.ltb_spec (key y) (key x)) as [Hlt|Hge]; [|done].
  rewrite !filter_cons in *. rewrite IH.
  destruct (decide (key x = v)), (decide (key y = v)); try done. lia.
Qed.

Lemma rssi_order_snoc l x :
  rssi_order key (l ++ [x]) = reverse (sift_list key x (reverse (rssi_order key l))).
Proof. unfold rssi_order. by rewrite foldl_snoc, reverse_involutive. Qed.

(** The order by rssi is a stable sort by descending key. *)
Lemma rssi_order_Permutation l : rssi_order key l ≡ₚ l.
Proof.
  induction l as [|x l IH] using rev_ind; [done|].
  rewrite rssi_order_snoc, reverse_Permutation, sift_list_Permutation.
  rewrite reverse_Permutation, IH. by rewrite Permutation_app_comm.
Qed.

Lemma rssi_order_sorted l : Sorted (λ a b, key b ≤ key a) (rssi_order key l).
Proof.
  unfold rssi_order. apply Sorted_reverse.
  change (Sorted (λ a b, key a ≤ key b)
            (foldl (λ acc x, sift_list key x acc) [] l)).
  induction l as [|x l IH] using rev_ind.
  - constructor.
  - rewrite foldl_snoc. by apply sift_list_sorted.
Qed.

Lemma rssi_order_stable (v : Z) l :
  filter (λ a, key a = v) (rssi_order key l) = filter (λ a, key a = v) l.
Proof.
  induction l as [|x l IH] using rev_ind; [done|].
  rewrite rssi_order_snoc, filter_reverse, sift_list_stable.
  rewrite filter_cons, filter_reverse, IH, filter_app.
  rewrite (filter_cons _ x), filter_nil.
  destruct (decide (key x = v)); simpl.
  - by rewrite reverse_cons, reverse_involutive.
  - by rewrite reverse_involutive, app_nil_r.
Qed.

Lemma rssi_order_length l : length (rssi_order key l) = length l.
Proof. by rewrite rssi_order_Permutation. Qed.
End sift.

Lemma sift_list_fmap {A B} (f : A → B) (key : B → Z) x racc :
  f <$> sift_list (key ∘ f) x racc = sift_list key (f x) (f <$> racc).
Proof.
induction racc as [|y r IH]; [done|].
  rewrite fmap_cons. cbn [sift_list].
  change ((key ∘ f) y) with (key (f y)). change ((key ∘ f) x) with (key (f x)).
  destruct (key (f y) <? key (f x)); [|done].
  by rewrite fmap_cons, IH.
Qed.

Lemma rssi_order_fmap {A B} (f : A → B) (key : B → Z) l :
  f <$> rssi_order (key ∘ f) l = rssi_order key (f <$> l).
Proof.
induction l as [|x l IH] using rev_ind; [done|].
  rewrite fmap_app. simpl. rewrite !rssi_order_snoc.
  by rewrite fmap_reverse, sift_list_fmap, fmap_reverse, IH.
Qed.

(** ** [print_queue_by_rssi] *)

Lemma array_get_ok (sorted : list ptr) j p st :
  sorted !! j = Some p → array_get sorted j st = Ok (p, st).
Proof. intros H. unfold array_get. by rewrite H. Qed.

Lemma array_set_ok (sorted : list ptr) j p q st :
  sorted !! j = Some q → array_set sorted j p st = Ok (<[j:=p]> sorted, st).
Proof. intros H. unfold array_set. by rewrite H. Qed.

Lemma load_ok n b st : pool_blocks st !! n = Some b → load (Some n) st = Ok (b, st).
Proof. intros H. unfold load. by rewrite H. Qed.

Lemma rssi_at_pays bs n b : bs !! n = Some b → rssi_at (pays bs) n = rssi (adv (mem b)).
Proof. intros H. unfold rssi_at. by rewrite (entry_at_pays _ _ _ H). Qed.

Lemma sift_spec st x racc rest :
  (∀ n, n ∈ x :: racc → is_Some (pool_blocks st !! n)) →
  sift (length racc) ((Some <$> reverse racc) ++ Some x :: rest) st =
    Ok ((Some <$> reverse (sift_list (rssi_at (pays (pool_blocks st))) x racc)) ++ rest, st).
Proof.
  revert rest. induction racc as [|y r IH]; intros rest Hv; [done|].
  destruct (Hv x) as [bx Hbx]; [left|].
  destruct (Hv y) as [by' Hby]; [right; left|].
  rewrite reverse_cons, fmap_app. simpl length. simpl fmap.
  set (A := Some <$> reverse r).
  assert (HA : length A = length r) by (unfold A; by rewrite length_fmap, length_reverse).
  rewrite <- app_assoc. simpl app.
  assert (Hj : (A ++ Some y :: Some x :: rest) !! S (length r) = Some (Some x)).
  { rewrite lookup_app_r by lia. by replace (S (length r) - length A)%nat with 1%nat by lia. }
  assert (Hj' : (A ++ Some y :: Some x :: rest) !! length r = Some (Some y)).
  { by apply list_lookup_middle. }
  cbn [sift].
  rewrite (bind_ok _ _ _ _ _ (array_get_ok _ _ _ st Hj)).
  rewrite (bind_ok _ _ _ _ _ (load_ok _ _ st Hbx)).
  rewrite (bind_ok _ _ _ _ _ (array_get_ok _ _ _ st Hj')).
  rewrite (bind_ok _ _ _ _ _ (load_ok _ _ st Hby)).
  cbn [sift_list].
  rewrite (rssi_at_pays _ _ _ Hbx), (rssi_at_pays _ _ _ Hby).
  destruct (rssi (adv (mem by')) <? rssi (adv (mem bx))).
  - rewrite (bind_ok _ _ _ _ _ (array_get_ok _ _ _ st Hj)).
    rewrite (bind_ok _ _ _ _ _ (array_get_ok _ _ _ st Hj')).
    rewrite (bind_ok _ _ _ _ _ (array_set_ok _ _ (Some y) _ st Hj)).
    rewrite insert_app_r_alt by lia.
    replace (S (length r) - length A)%nat with 1%nat by lia. simpl insert.
    assert (Hj'' : (A ++ Some y :: Some y :: rest) !! length r = Some (Some y)).
    { by apply list_lookup_middle. }
    rewrite (bind_ok _ _ _ _ _ (array_set_ok _ _ (Some x) _ st Hj'')).
    rewrite insert_app_r_alt by lia.
    replace (length r - length A)%nat with 0%nat by lia. simpl insert.
    unfold A. rewrite IH.
    + by rewrite reverse_cons, fmap_app, <- app_assoc.
    + intros n [->|Hn]%elem_of_cons; apply Hv; [left|by do 2 right].
  - unfold mret, M_ret. rewrite !reverse_cons, !fmap_app, <- !app_assoc. done.
Qed.

Lemma insert_loop_spec fuel st pv ns acc :
  chain (links (pool_blocks st)) pv ns None →
  (length ns ≤ fuel)%nat → (length acc + length ns ≤ 32)%nat →
  (∀ n, n ∈ acc → is_Some (pool_blocks st !! n)) →
  insert_loop fuel (first_or None ns) (length acc)
      ((Some <$> reverse acc) ++ replicate (32 - length acc) None) st =
    Ok ((Some <$> reverse (foldl (λ a n, sift_list (rssi_at (pays (pool_blocks st))) n a)
                                 acc ns))
          ++ replicate (32 - length acc - length ns) None, st).
Proof.
  revert fuel pv acc. induction ns as [|n ns IH]; intros fuel pv acc Hch Hf Hlen Hv.
  - destruct fuel; simpl; by rewrite Nat.sub_0_r.
  - destruct fuel as [|fuel]; [simpl in Hf; lia|]. simpl in Hf, Hlen.
    destruct Hch as [Hn Hch].
    destruct (links_lookup _ _ _ _ Hn) as (b & Hb & Hpb & Hxb).
    cbn [insert_loop first_or].
    rewrite bool_decide_eq_false_2 by lia.
    replace (32 - length acc)%nat with (S (31 - length acc)) by lia.
    rewrite replicate_S.
    assert (Hk : ((Some <$> reverse acc) ++ None :: replicate (31 - length acc) None)
                   !! length acc = Some None).
    { apply list_lookup_middle. by rewrite length_fmap, length_reverse. }
    rewrite (bind_ok _ _ _ _ _ (array_set_ok _ _ (Some n) _ st Hk)).
    rewrite insert_app_r_alt by (rewrite length_fmap, length_reverse; lia).
    rewrite length_fmap, length_reverse, Nat.sub_diag. simpl insert.
    rewrite (bind_ok _ _ _ _ _ (sift_spec st n acc _ ltac:(
      intros m [->|Hm]%elem_of_cons; [by eexists|by apply Hv]))).
    rewrite (bind_ok _ _ _ _ _ (load_ok _ _ st Hb)). rewrite Hxb.
    set (acc' := sift_list _ n acc).
    assert (Hacc' : length acc' = S (length acc)) by apply sift_list_length.
    replace (31 - length acc)%nat with (32 - length acc')%nat by lia.
    rewrite <- Hacc'. rewrite (IH fuel (Some n) acc'); [| done | lia | lia |].
    + simpl foldl. do 3 f_equal; simpl; lia.
    + intros m Hm. unfold acc' in Hm. rewrite sift_list_Permutation in Hm.
      apply elem_of_cons in Hm as [->|Hm]; [by eexists|by apply Hv].
Qed.

Lemma print_sorted_loop_ok st pre l rest :
  (∀ n, n ∈ l → is_Some (pool_blocks st !! n)) →
  print_sorted_loop (length l) (length pre) (pre ++ (Some <$> l) ++ rest) st =
    Ok (tt, emit (row_of_entry <$> entries (pays (pool_blocks st)) l) st).
Proof.
  revert pre st. induction l as [|x l IH]; intros pre st Hv.
  - simpl. by rewrite emit_nil.
  - destruct (Hv x) as [b Hb]; [left|].
    cbn [print_sorted_loop length]. rewrite fmap_cons. simpl app.
    rewrite (bind_ok _ _ _ _ _ (array_get_ok _ _ (Some x) st ltac:(by apply list_lookup_middle))).
    rewrite (bind_ok _ _ _ _ _ (load_ok _ _ st Hb)).
    unfold printf, modify, mbind, M_bind.
    specialize (IH (pre ++ [Some x]) (emit [row_of (mem b)] st)).
    rewrite length_app, Nat.add_1_r, <- app_assoc in IH. simpl app in IH.
    rewrite IH by (intros; apply Hv; by right).
    rewrite emit_emit. unfold entries. rewrite !fmap_cons.
    by rewrite (entry_at_pays _ _ _ Hb).
Qed.

Lemma print_sorted_loop_fault st pre l rest m :
  (∀ n, n ∈ l → is_Some (pool_blocks st !! n)) →
  print_sorted_loop (length l + S m) (length pre) (pre ++ (Some <$> l) ++ None :: rest) st =
    Fault.
Proof.
  revert pre st. induction l as [|x l IH]; intros pre st Hv.
  - simpl. unfold mbind, M_bind.
    by rewrite (array_get_ok _ _ None st ltac:(by apply list_lookup_middle)).
  - destruct (Hv x) as [b Hb]; [left|].
    cbn [print_sorted_loop length Nat.add]. rewrite fmap_cons. simpl app.
    rewrite (bind_ok _ _ _ _ _ (array_get_ok _ _ (Some x) st ltac:(by apply list_lookup_middle))).
    rewrite (bind_ok _ _ _ _ _ (load_ok _ _ st Hb)).
    unfold printf, modify, mbind, M_bind.
    specialize (IH (pre ++ [Some x]) (emit [row_of (mem b)] st)).
    rewrite length_app, Nat.add_1_r, <- app_assoc in IH. simpl app in IH.
    by rewrite IH by (intros; apply Hv; by right).
Qed.

Lemma insert_loop_start fuel st ns :
  chain (links (pool_blocks st)) None ns None →
  (length ns ≤ fuel)%nat → (length ns ≤ 32)%nat →
  insert_loop fuel (first_or None ns) 0 (replicate 32 None) st =
    Ok ((Some <$> rssi_order (rssi_at (pays (pool_blocks st))) ns)
          ++ replicate (32 - length ns) None, st).
Proof.
  intros Hch Hf Hlen.
  apply (insert_loop_spec fuel st None ns [] Hch Hf); [done|].
  by intros n ?%elem_of_nil.
Qed.

Lemma print_queue_by_rssi_spec fuel st ns fl :
  inv st ns fl → (32 ≤ fuel)%nat →
  print_queue_by_rssi fuel st =
    if decide (length ns < 32)%nat then Fault
    else Ok (tt, emit (hdr_by_rssi ::
                       (row_of_entry <$>
                          rssi_order entry_rssi (entries (pays (pool_blocks st)) ns))) st).
Proof.
  intros [Hhd Htl Hc Hch Htop Hfl Hnd Hsz] Hfuel.
  assert (Hlen : (length ns ≤ 32)%nat) by lia.
  unfold print_queue_by_rssi.
  rewrite (bind_ok (get head) _ st (head st) st) by done. rewrite Hhd.
  rewrite (bind_ok _ _ _ _ _ (insert_loop_start fuel st ns Hch ltac:(lia) Hlen)).
  set (key := rssi_at (pays (pool_blocks st))).
  assert (Hv : ∀ n, n ∈ rssi_order key ns →
                    is_Some (pool_blocks (emit [hdr_by_rssi] st) !! n)).
  { intros n Hn. rewrite rssi_order_Permutation in Hn. simpl.
    destruct (chain_lookup _ _ _ _ _ Hch Hn) as [[p x] Hl].
    destruct (links_lookup _ _ _ _ Hl) as (b & Hb & _). by eexists. }
  unfold printf, modify, mbind, M_bind.
  destruct (decide (length ns < 32)%nat) as [Hlt|Hge].
  - replace 32%nat with (length (rssi_order key ns) + S (31 - length ns))%nat at 1
      by (rewrite rssi_order_length; lia).
    replace (32 - length ns)%nat with (S (31 - length ns)) by lia.
    rewrite replicate_S.
    by apply (print_sorted_loop_fault _ []).
  - replace 32%nat with (length (rssi_order key ns)) at 1
      by (rewrite rssi_order_length; lia).
    pose proof (print_sorted_loop_ok (emit [hdr_by_rssi] st) [] (rssi_order key ns)
                  (replicate (32 - length ns) None) Hv) as Hp.
    cbn [length app] in Hp. cbn beta iota. rewrite Hp.
    rewrite emit_emit. simpl. unfold entries.
    change key with (entry_rssi ∘ entry_at (pays (pool_blocks st))).
    by rewrite rssi_order_fmap.
Qed.

(** X20. On a full queue [print_queue_by_rssi] prints the live entries in a
    stable order by descending rssi and changes nothing but [stdout]. *)
Lemma print_queue_by_rssi_full fuel events :
  (32 ≤ fuel)%nat → (32 ≤ length (remove_dups (ids events)))%nat →
  ∃ st es,
    run fuel events boot = Ok (tt, st) ∧
    live_entries fuel st = Ok (es, st) ∧
    print_queue_by_rssi fuel st =
      Ok (tt, emit (hdr_by_rssi :: (row_of_entry <$> rssi_order entry_rssi es)) st) ∧
    rssi_order entry_rssi es ≡ₚ es ∧
    Sorted (λ a b, entry_rssi b ≤ entry_rssi a) (rssi_order entry_rssi es) ∧
    (∀ v, filter (λ e, entry_rssi e = v) (rssi_order entry_rssi es) =
          filter (λ e, entry_rssi e = v) es).
Proof.
  intros Hfuel Hmany.
  destruct (run_live fuel events Hfuel)
    as (st & ns & fl & es & Hrun & Hinv & Hes & Hlive & Hids & Hc & Hout).
  assert (Hlen : length ns = 32%nat).
  { rewrite <- (length_fmap (entry_at (pays (pool_blocks st))) ns).
    fold (entries (pays (pool_blocks st)) ns).
    rewrite <- Hes, <- length_ids, Hids, length_take. unfold recency.
    rewrite length_reverse. lia. }
  exists st, es.
  split_and!; [assumption|assumption| | | |].
  - rewrite (print_queue_by_rssi_spec fuel st ns fl Hinv Hfuel).
    rewrite decide_False by lia. by rewrite Hes.
  - apply rssi_order_Permutation.
  - apply rssi_order_sorted.
  - intros v. apply rssi_order_stable.
Qed.

(** * The claims *)

(** C1. Uniqueness: after every run of [on_discovery] from the empty queue,
    the run returns and no two live entries have the same [device_id]. *)
Theorem uniqueness_invariant fuel events :
  (32 ≤ fuel)%nat →
  ∃ st es,
    run fuel events boot = Ok (tt, st) ∧
    live_entries fuel st = Ok (es, st) ∧
    NoDup (ids es).
Proof.
  intros Hfuel.
  destruct (run_live fuel events Hfuel)
    as (st & ns & fl & es & Hrun & Hinv & Hes & Hlive & Hids & Hc & Hout).
  exists st, es. split_and!; [assumption|assumption|].
  rewrite Hids. apply NoDup_take_recency.
Qed.

Lemma uniqueness_invariant_witness :
  ∃ st es,
    run 32 (two_devices ++ [(advert 1 5, 103)]) boot = Ok (tt, st) ∧
    live_entries 32 st = Ok (es, st) ∧
    NoDup (ids es).
Proof. apply (uniqueness_invariant 32 (two_devices ++ [(advert 1 5, 103)])). lia. Defined.

(** C2. Capacity: after every run of [on_discovery] from the empty queue,
    [device_count] is the number of live entries and is at most 32; it is
    the smaller of 32 and the number of distinct device ids seen, hence 32
    as soon as more than 32 distinct ids were seen. *)
Theorem capacity_invariant fuel events :
  (32 ≤ fuel)%nat →
  ∃ st es,
    run fuel events boot = Ok (tt, st) ∧
    live_entries fuel st = Ok (es, st) ∧
    device_count st = Z.of_nat (length es) ∧
    (length es ≤ 32)%nat ∧
    length es = (32 `min` length (remove_dups (ids events)))%nat ∧
    ((32 < length (remove_dups (ids events)))%nat → device_count st = 32).
Proof.
  intros Hfuel.
  destruct (run_live fuel events Hfuel)
    as (st & ns & fl & es & Hrun & Hinv & Hes & Hlive & Hids & Hc & Hout).
  assert (Hlen : length es = (32 `min` length (remove_dups (ids events)))%nat).
  { rewrite <- length_ids, Hids, length_take. unfold recency.
    by rewrite length_reverse. }
  exists st, es. split_and!; [assumption|assumption|assumption|lia|assumption|lia].
Qed.

Lemma capacity_invariant_witness :
  ∃ st es,
    run 32 two_devices boot = Ok (tt, st) ∧
    live_entries 32 st = Ok (es, st) ∧
    device_count st = Z.of_nat (length es) ∧
    (length es ≤ 32)%nat ∧
    length es = (32 `min` length (remove_dups (ids two_devices)))%nat ∧
    ((32 < length (remove_dups (ids two_devices)))%nat → device_count st = 32).
Proof. apply (capacity_invariant 32 two_devices). lia. Defined.

(** C3. Eviction policy: on a queue reached by a run, [on_discovery] of a
    device already present keeps the set of live device ids (nothing is
    evicted); of a new device with room left it only adds the new entry; of a
    new device with 32 entries it drops exactly the last entry of the
    recency order, the least recently updated one.  After the ids 1..32 in
    this order, the id 33 leaves 1 absent and 33 present. *)
Theorem eviction_policy fuel events data ts :
  (32 ≤ fuel)%nat →
  ∃ st es st' es',
    run fuel events boot = Ok (tt, st) ∧
    live_entries fuel st = Ok (es, st) ∧
    on_discovery fuel data ts st = Ok (tt, st') ∧
    live_entries fuel st' = Ok (es', st') ∧
    (device_id data ∈ ids es → ids es' ≡ₚ ids es ∧ length es' = length es) ∧
    (device_id data ∉ ids es → (length es < 32)%nat → es' = (data, ts) :: es) ∧
    (device_id data ∉ ids es → length es = 32%nat →
     ∃ l e, es = l ++ [e] ∧ es' = (data, ts) :: l) ∧
    (ids events = Z.of_nat <$> seq 1 32 → device_id data = 33 →
     (1 ∉ ids es') ∧ (33 ∈ ids es') ∧ ids es' = Z.of_nat <$> reverse (seq 2 32)).
Proof.
  intros Hfuel.
  destruct (run_live fuel events Hfuel)
    as (st & ns & fl & es & Hrun & Hinv & Hes & Hlive & Hids & Hc & Hout).
  destruct (on_discovery_spec fuel data ts st ns fl Hinv Hfuel)
    as (st' & ns' & fl' & Hdisc & Hinv' & Hstep & Hout').
  rewrite <- Hes in Hstep.
  exists st, es, st', (entries (pays (pool_blocks st')) ns').
  destruct (step_cases _ _ _ _ Hstep) as (H1 & H2 & H3).
  split_and!; [assumption|assumption|assumption| |assumption|assumption|assumption|].
  - by eapply live_entries_spec.
  - intros Hev Hid.
    assert (Ht : tracks (ids events ++ [device_id data])
                        (entries (pays (pool_blocks st')) ns')).
    { eapply step_tracks; [|exact Hstep]. exact Hids. }
    unfold tracks in Ht. rewrite Hev, Hid in Ht. rewrite Ht.
    vm_compute. split_and!; [|by left|done].
    intros Hin. repeat (apply elem_of_cons in Hin as [?|Hin]; [done|]).
    by apply elem_of_nil in Hin.
Qed.

Lemma eviction_policy_witness :
  ∃ st es st' es',
    run 32 two_devices boot = Ok (tt, st) ∧
    live_entries 32 st = Ok (es, st) ∧
    on_discovery 32 (advert 3 30) 102 st = Ok (tt, st') ∧
    live_entries 32 st' = Ok (es', st') ∧
    (device_id (advert 3 30) ∈ ids es → ids es' ≡ₚ ids es ∧ length es' = length es) ∧
    (device_id (advert 3 30) ∉ ids es → (length es < 32)%nat →
     es' = (advert 3 30, 102) :: es) ∧
    (device_id (advert 3 30) ∉ ids es → length es = 32%nat →
     ∃ l e, es = l ++ [e] ∧ es' = (advert 3 30, 102) :: l) ∧
    (ids two_devices = Z.of_nat <$> seq 1 32 → device_id (advert 3 30) = 33 →
     (1 ∉ ids es') ∧ (33 ∈ ids es') ∧ ids es' = Z.of_nat <$> reverse (seq 2 32)).
Proof. apply (eviction_policy 32 two_devices (advert 3 30) 102). lia. Defined.

(** The 32 devices 1 .. 32 and then device 33: device 1 is gone. *)
Example fill_then_one_more :
  ∃ st es,
    run 32 (devices_up_to 33) boot = Ok (tt, st) ∧
    live_entries 32 st = Ok (es, st) ∧
    ids es = Z.of_nat <$> reverse (seq 2 32).
Proof.
  do 2 eexists. split; [vm_compute; reflexivity|].
  split; vm_compute; reflexivity.
Qed.



(** The four devices of rssi 50, 80, 80 and 30, seen in this order: the
    queue holds them most recent first, and the insertion loop orders them
    as 80, 80, 50, 30 with the more recent 80 (device 3) first, in the blocks
    2, 1, 0, 3. *)
Example rssi_order_four_devices :
  ∃ st es,
    run 32 four_devices boot = Ok (tt, st) ∧
    live_entries 32 st = Ok (es, st) ∧
    es = [(advert 4 30, 4); (advert 3 80, 3); (advert 2 80, 2); (advert 1 50, 1)] ∧
    rssi_order entry_rssi es =
      [(advert 3 80, 3); (advert 2 80, 2); (advert 1 50, 1); (advert 4 30, 4)] ∧
    (h ← get head; insert_loop 32 h 0 (replicate 32 None)) st =
      Ok ([Some 2; Some 1; Some 0; Some 3]%nat ++ replicate 28 None, st).
Proof.
  do 2 eexists. split; [vm_compute; reflexivity|].
  split; [vm_compute; reflexivity|].
  split; [reflexivity|]. split; vm_compute; reflexivity.
Qed.

(** C5. [print_queue_by_rssi] is defined only on a full queue: after a run
    with fewer than 32 distinct devices, it faults (its print loop reads the
    32 slots of [sorted], of which only [device_count] are filled). *)
Theorem print_queue_by_rssi_faults fuel events :
  (32 ≤ fuel)%nat → (length (remove_dups (ids events)) < 32)%nat →
  ∃ st,
    run fuel events boot = Ok (tt, st) ∧
    device_count st = Z.of_nat (length (remove_dups (ids events))) ∧
    print_queue_by_rssi fuel st = Fault.
Proof.
  intros Hfuel Hfew.
  destruct (run_live fuel events Hfuel)
    as (st & ns & fl & es & Hrun & Hinv & Hes & Hlive & Hids & Hc & Hout).
  assert (Hlen : length es = length (remove_dups (ids events))).
  { rewrite <- length_ids, Hids, length_take. unfold recency.
    rewrite length_reverse. lia. }
  assert (Hns : length ns = length es).
  { rewrite Hes. unfold entries. by rewrite length_fmap. }
  exists st. split_and!; [assumption|congruence|].
  rewrite (print_queue_by_rssi_spec fuel st ns fl Hinv Hfuel).
  by rewrite decide_True by lia.
Qed.

Lemma print_queue_by_rssi_faults_witness :
  ∃ st,
    run 32 two_devices boot = Ok (tt, st) ∧
    device_count st = Z.of_nat (length (remove_dups (ids two_devices))) ∧
    print_queue_by_rssi 32 st = Fault.
Proof.
  apply (print_queue_by_rssi_faults 32 two_devices); [lia|vm_compute; lia].
Defined.

(** C6. Merge path: when the advertisement has the [device_id] of a live
    entry, [on_discovery] gives this entry the incoming [rssi] and time and
    moves it to the most recent end; its [device_id], [device_name],
    [device_data] and [rf_address] stay those stored, the other entries and
    their order are unchanged and no entry is added. *)
Theorem merge_path_frame fuel events data ts st es l1 a t l2 :
  (32 ≤ fuel)%nat →
  run fuel events boot = Ok (tt, st) →
  live_entries fuel st = Ok (es, st) →
  es = l1 ++ (a, t) :: l2 →
  device_id a = device_id data →
  ∃ st',
    on_discovery fuel data ts st = Ok (tt, st') ∧
    live_entries fuel st' =
      Ok ((mk_adv (device_id a) (device_name a) (device_data a) (rf_address a)
                  (rssi data), ts) :: l1 ++ l2, st') ∧
    device_count st' = device_count st ∧
    stdout st' = stdout st.
Proof.
  intros Hfuel Hrun Hlive Hes Ha.
  destruct (run_live fuel events Hfuel)
    as (st0 & ns & fl & es0 & Hrun0 & Hinv & Hes0 & Hlive0 & Hids & Hc & Hout).
  assert (st0 = st) as -> by congruence.
  assert (es0 = es) as -> by congruence.
  destruct (on_discovery_spec fuel data ts st ns fl Hinv Hfuel)
    as (st' & ns' & fl' & Hdisc & Hinv' & Hstep & Hout').
  rewrite <- Hes0, Hes in Hstep.
  apply step_merge_inv in Hstep; [|rewrite <- Hes, Hids; apply NoDup_take_recency|done].
  exists st'. split_and!; [assumption| | |assumption].
  - rewrite (live_entries_spec fuel st' ns' fl' Hinv' Hfuel). by rewrite Hstep.
  - destruct Hinv' as [_ _ Hc' _ _ _ _ _]. rewrite Hc', Hc.
    rewrite <- (length_fmap (entry_at (pays (pool_blocks st'))) ns').
    fold (entries (pays (pool_blocks st')) ns'). rewrite Hstep, Hes.
    simpl. rewrite !length_app. simpl. f_equal. lia.
Qed.

Lemma merge_path_frame_witness :
  ∃ st',
    on_discovery 32 (advert 1 5) 103 after_two_devices = Ok (tt, st') ∧
    live_entries 32 st' =
      Ok ((mk_adv 1 (replicate 16 x00) (replicate 64 x00) 0 5, 103)
            :: [(advert 2 20, 101)] ++ [], st') ∧
    device_count st' = device_count after_two_devices ∧
    stdout st' = stdout after_two_devices.
Proof.
  apply (merge_path_frame 32 two_devices (advert 1 5) 103 after_two_devices
           [(advert 2 20, 101); (advert 1 10, 100)]
           [(advert 2 20, 101)] (advert 1 10) 100 []);
    [lia|vm_compute; reflexivity|vm_compute; reflexivity|reflexivity|reflexivity].
Defined.

(** C7. Recency ordering: after a run, [print_queue_by_time] prints the
    header and one row per live entry, the most recently updated first, and
    changes nothing but [stdout]; the order is that of the last advertisement
    of each device.  After the ids 1, 2, 3 the rows are those of 3, 2, 1;
    after 1, 2, 3, 1 they are those of 1, 3, 2. *)
Theorem recency_ordering fuel events :
  (32 ≤ fuel)%nat →
  ∃ st es,
    run fuel events boot = Ok (tt, st) ∧
    live_entries fuel st = Ok (es, st) ∧
    print_queue_by_time fuel st =
      Ok (tt, emit (hdr_by_time :: (row_of_entry <$> es)) st) ∧
    ids es = take 32 (recency (ids events)) ∧
    (ids events = [1; 2; 3] → ids es = [3; 2; 1]) ∧
    (ids events = [1; 2; 3; 1] → ids es = [1; 3; 2]).
Proof.
  intros Hfuel.
  destruct (run_live fuel events Hfuel)
    as (st & ns & fl & es & Hrun & Hinv & Hes & Hlive & Hids & Hc & Hout).
  exists st, es. split_and!; [assumption|assumption| |assumption| |].
  - rewrite Hes. by eapply print_queue_by_time_spec.
  - intros Hev. by rewrite Hids, Hev.
  - intros Hev. by rewrite Hids, Hev.
Qed.

Lemma recency_ordering_witness :
  ∃ st es,
    run 32 two_devices boot = Ok (tt, st) ∧
    live_entries 32 st = Ok (es, st) ∧
    print_queue_by_time 32 st =
      Ok (tt, emit (hdr_by_time :: (row_of_entry <$> es)) st) ∧
    ids es = take 32 (recency (ids two_devices)) ∧
    (ids two_devices = [1; 2; 3] → ids es = [3; 2; 1]) ∧
    (ids two_devices = [1; 2; 3; 1] → ids es = [1; 3; 2]).
Proof. apply (recency_ordering 32 two_devices). lia. Defined.

(** The rows printed after the devices 1, 2, 3 and then 1 again. *)
Example print_queue_by_time_1231 :
  ∃ st,
    (run 32 [(advert 1 10, 100); (advert 2 20, 101); (advert 3 30, 102);
             (advert 1 5, 103)];;
     print_queue_by_time 32) boot = Ok (tt, st) ∧
    stdout st = [hdr_by_time; row 103 1 5; row 102 3 30; row 101 2 20].
Proof. eexists. split; [vm_compute; reflexivity|reflexivity]. Qed.

(** C8. Allocator round trip: after [pool_init] with a capacity [N] that the
    arena holds ([N] at most [INT_MAX + 1], as the loop of [pool_init] counts
    in an [int]), [N] calls of [pool_alloc] return the blocks 0 .. N-1, the
    next one returns [NULL], and after [pool_free] of any of the [N] blocks
    (which prints no warning) [pool_alloc] returns that block.  In every
    state [pool_alloc] returns [NULL] exactly when the free stack is empty. *)
Theorem allocator_round_trip (N : nat) st :
  (N ≤ length (pool_blocks st))%nat → Z.of_nat N ≤ 2147483648 →
  ∃ st1 st2,
    pool_init sizeof_device_t (Z.of_nat N) st = Ok (tt, st1) ∧
    alloc_loop N st1 = Ok (Some <$> seq 0 N, st2) ∧
    pool_alloc sizeof_device_t st2 = Ok (None, st2) ∧
    (∀ k, (k < N)%nat →
       ∃ st3 st4,
         pool_free (Some k) st2 = Ok (tt, st3) ∧ stdout st3 = stdout st2 ∧
         pool_alloc sizeof_device_t st3 = Ok (Some k, st4)) ∧
    (∀ s p s', pool_alloc sizeof_device_t s = Ok (p, s') →
       p = None ↔ fp_nextfree (pool_header s) = None).
Proof.
  intros Hlen HN.
  destruct (pool_init_spec sizeof_device_t N st Hlen HN)
    as (st1 & E1 & Htop1 & Hfl1 & _ & _ & _).
  destruct (alloc_loop_spec (seq 0 N) [] st1)
    as (st2 & E2 & Htop2 & _ & Hin2 & _ & _).
  { by rewrite app_nil_r. }
  { by rewrite app_nil_r. }
  { rewrite app_nil_r. apply NoDup_seq. }
  rewrite length_seq in E2.
  exists st1, st2. split_and!; [assumption|assumption| | |].
  - by apply pool_alloc_empty.
  - intros k Hk.
    assert (Hfk : frees (pool_blocks st2) !! k = Some None).
    { apply Hin2. apply elem_of_seq. lia. }
    destruct (frees_lookup _ _ _ Hfk) as (b & Hb & Hnf).
    destruct st2 as [[top bsz bct] bs c hd tl out]. simpl in *. subst top.
    unfold pool_free, pool_alloc, mbind, M_bind.
    exec. rewrite Hnf. exec. do 2 eexists. split; [reflexivity|].
    split; [done|]. exec. reflexivity.
  - intros [[top bsz bct] bs c hd tl out] p s'.
    unfold pool_alloc, mbind, M_bind, get, load, store. simpl.
    destruct top as [n|]; cbn.
    + destruct (bs !! n) as [b|] eqn:E; cbn; rewrite ?E; cbn; [|done].
      intros H. inversion H. by split.
    + intros H. inversion H. by split.
Qed.

Lemma allocator_round_trip_witness :
  ∃ st1 st2,
    pool_init sizeof_device_t (Z.of_nat 4) boot = Ok (tt, st1) ∧
    alloc_loop 4 st1 = Ok (Some <$> seq 0 4, st2) ∧
    pool_alloc sizeof_device_t st2 = Ok (None, st2) ∧
    (∀ k, (k < 4)%nat →
       ∃ st3 st4,
         pool_free (Some k) st2 = Ok (tt, st3) ∧ stdout st3 = stdout st2 ∧
         pool_alloc sizeof_device_t st3 = Ok (Some k, st4)) ∧
    (∀ s p s', pool_alloc sizeof_device_t s = Ok (p, s') →
       p = None ↔ fp_nextfree (pool_header s) = None).
Proof.
  apply (allocator_round_trip 4 boot); [vm_compute; lia|lia].
Defined.

(** C9. Double release.  With the four blocks of [test_pool] allocated,
    [pool_free] of block 0 twice prints no warning; the free stack is then
    block 0 linked to itself, and [pool_alloc] returns block 0 twice.  With
    two blocks allocated the second [pool_free] of block 0 prints the
    warning, and links block 0 to itself all the same. *)
Theorem double_free_corrupts :
  (∃ st st',
     (pool_init sizeof_device_t 4;; alloc_loop 4;;
      pool_free (Some 0%nat);; pool_free (Some 0%nat)) boot = Ok (tt, st) ∧
     stdout st = [] ∧
     (¬ ∃ fl, free_stack st fl) ∧
     (p1 ← pool_alloc sizeof_device_t; p2 ← pool_alloc sizeof_device_t; mret (p1, p2)) st
       = Ok ((Some 0%nat, Some 0%nat), st')) ∧
  (∃ st,
     (pool_init sizeof_device_t 4;; alloc_loop 2;;
      pool_free (Some 0%nat);; pool_free (Some 0%nat)) boot = Ok (tt, st) ∧
     stdout st = [warn_double_free 0 2] ∧
     (¬ ∃ fl, free_stack st fl)).
Proof.
  assert (Hcycle : ∀ st,
    fp_nextfree (pool_header st) = Some 0%nat →
    frees (pool_blocks st) !! 0%nat = Some (Some 0%nat) →
    ¬ ∃ fl, free_stack st fl).
  { intros st Htop Hz (fl & Htop' & Hch & Hnd).
    rewrite Htop in Htop'. destruct fl as [|n fl]; [done|].
    injection Htop' as <-. destruct Hch as [H0 _].
    rewrite Hz in H0. destruct fl as [|m fl]; [done|].
    injection H0 as <-. apply NoDup_cons in Hnd as [Hnin _].
    apply Hnin. left. }
  split.
  - do 2 eexists. split; [vm_compute; reflexivity|].
    split; [reflexivity|]. split; [by apply Hcycle|].
    vm_compute. reflexivity.
  - eexists. split; [vm_compute; reflexivity|].
    split; [reflexivity|]. by apply Hcycle.
Qed.

(** C10. [pool_free] of [NULL] prints the warning and returns; the header
    of the pool, its blocks and the queue are unchanged. *)
Theorem pool_free_null st :
  pool_free None st = Ok (tt, emit [warn_null_free] st) ∧
  pool_header (emit [warn_null_free] st) = pool_header st ∧
  pool_blocks (emit [warn_null_free] st) = pool_blocks st ∧
  head (emit [warn_null_free] st) = head st ∧
  tail (emit [warn_null_free] st) = tail st ∧
  device_count (emit [warn_null_free] st) = device_count st.
Proof. by split_and!. Qed.

(** * Further properties of the code *)

(** ** The queue and the pool together *)

(** ** The blocks of the queue are allocated *)

Lemma discover_spec_alloc fuel events st ns fl :
  inv_alloc st ns fl → (32 ≤ fuel)%nat →
  ∃ st' ns' fl',
    discover fuel events st = Ok (tt, st') ∧ inv_alloc st' ns' fl' ∧
    steps events (entries (pays (pool_blocks st)) ns)
                 (entries (pays (pool_blocks st')) ns') ∧
    stdout st' = stdout st.
Proof.
  intros Hinv Hfuel. revert st ns fl Hinv.
  induction events as [|[data ts] events IH]; intros st ns fl [Hinv Ha].
  - exists st, ns, fl. split_and!; [reflexivity|by split|constructor|reflexivity].
  - destruct (on_discovery_spec_strong fuel data ts st ns fl Hinv Hfuel)
      as (st1 & ns1 & fl1 & E1 & Hinv1 & Hstep & Hout1 & Ha1).
    destruct (IH st1 ns1 fl1) as (st2 & ns2 & fl2 & E2 & Hinv2 & Hsteps & Hout2).
    { split; [assumption|]. by apply Ha1. }
    exists st2, ns2, fl2. simpl. rewrite (bind_ok _ _ _ _ _ E1).
    split_and!; [assumption|assumption| |congruence].
    by econstructor.
Qed.

Lemma inv_alloc_ready : inv_alloc ready [] (seq 0 32).
Proof. split; [apply inv_ready|]. by intros n ?%elem_of_nil. Qed.

Lemma run_alloc fuel events :
  (32 ≤ fuel)%nat →
  ∃ st ns fl es,
    run fuel events boot = Ok (tt, st) ∧ inv_alloc st ns fl ∧
    es = entries (pays (pool_blocks st)) ns ∧
    steps events [] es ∧
    live_entries fuel st = Ok (es, st) ∧
    ids es = take 32 (recency (ids events)) ∧
    stdout st = [].
Proof.
  intros Hfuel.
  destruct (discover_spec_alloc fuel events ready [] (seq 0 32) inv_alloc_ready Hfuel)
    as (st & ns & fl & E & Hinv & Hsteps & Hout).
  exists st, ns, fl, (entries (pays (pool_blocks st)) ns).
  unfold run. rewrite (bind_ok _ _ _ _ _ pool_init_boot).
  split_and!; [assumption|assumption|reflexivity|assumption| | |assumption].
  - eapply live_entries_spec; [apply Hinv|assumption].
  - by apply steps_recency.
Qed.

(** ** [pool_free] of an allocated block *)

Lemma pool_free_spec st n fl :
  fp_nextfree (pool_header st) = first_or None fl →
  free_chain (frees (pool_blocks st)) fl → n ∉ fl →
  frees (pool_blocks st) !! n = Some None →
  ∃ st', pool_free (Some n) st = Ok (tt, st') ∧
         fp_nextfree (pool_header st') = Some n ∧
         free_chain (frees (pool_blocks st')) (n :: fl) ∧
         (∀ m, m ≠ n → frees (pool_blocks st') !! m = frees (pool_blocks st) !! m) ∧
         pool_frame st st'.
Proof.
  destruct st as [[top bsz bct] bs c hd tl out]; simpl. intros -> Hfl Hnin Hn.
  destruct (frees_lookup _ _ _ Hn) as (b & Hb & Hnf).
  unfold pool_free, pool_frame, mbind, M_bind.
  exec. rewrite Hnf. exec. eexists. split; [reflexivity|]. views.
  split_and!; try done.
  - look. done.
  - by apply free_chain_insert.
  - intros m Hm. by rewrite list_lookup_insert_ne.
Qed.

Lemma live_entries_chain fuel st ns :
  head st = first_or None ns → chain (links (pool_blocks st)) None ns None →
  (length ns ≤ fuel)%nat →
  live_entries fuel st = Ok (entries (pays (pool_blocks st)) ns, st).
Proof.
  intros Hhd Hch Hf. unfold live_entries, mbind, M_bind, get. rewrite Hhd.
  by eapply live_entries_loop_spec.
Qed.

Lemma queue_clear_spec fuel st ns fl :
  inv_alloc st ns fl → (length ns ≤ fuel)%nat →
  ∃ st', queue_clear fuel st = Ok (tt, st') ∧ inv_alloc st' [] (ns ++ fl) ∧
         stdout st' = stdout st ∧
         pays (pool_blocks st') = pays (pool_blocks st).
Proof.
  revert fuel st fl. induction ns as [|n l IH] using rev_ind; intros fuel st fl [Hinv Ha] Hf.
  - exists st. destruct Hinv as [Hhd Htl Hc Hch Htop Hfl Hnd Hsz].
    split_and!; [|by split|reflexivity|reflexivity].
    destruct fuel; simpl; unfold mbind, M_bind, get; by rewrite Hhd.
  - destruct Hinv as [Hhd Htl Hc Hch Htop Hfl Hnd Hsz].
    rewrite length_app in Hf, Hsz. simpl in Hf, Hsz.
    destruct fuel as [|fuel]; [lia|].
    assert (Hlen : (length (l ++ [n]) ≤ 32)%nat) by (rewrite length_app; simpl; lia).
    assert (Hnd' := Hnd). apply NoDup_app in Hnd' as (Hndq & Hdisj & Hndf).
    destruct (queue_pop_spec st l n Hhd Htl Hc Hlen Hch Hndq)
      as (st1 & E1 & Hhd1 & Htl1 & Hc1 & Hch1 & Hh1 & Ho1 & Hf1 & Hp1).
    assert (Hnfl : n ∉ fl).
    { apply Hdisj. apply elem_of_app. right. left. }
    destruct (pool_free_spec st1 n fl) as
      (st2 & E2 & Htop2 & Hfl2 & Hother2 & Hhd2 & Htl2 & Hc2 & Ho2 & Hl2 & Hp2).
    { by rewrite Hh1. }
    { by rewrite Hf1. }
    { done. }
    { rewrite Hf1. apply Ha. apply elem_of_app. right. left. }
    apply NoDup_app in Hndq as (Hndl & Hnl & _).
    assert (Hnl' : n ∉ l) by (intros ?; eapply Hnl; [done|left]).
    destruct (IH fuel st2 (n :: fl)) as (st3 & E3 & Hinv3 & Ho3 & Hp3); [| lia |].
    { split.
      - constructor; try congruence; try (simpl; lia); try assumption.
        by rewrite <- app_assoc in Hnd.
      - intros m Hm. rewrite Hother2 by (by intros ->). rewrite Hf1.
        apply Ha. apply elem_of_app. by left. }
    exists st3. rewrite <- app_assoc. simpl.
    split_and!; [|assumption|congruence|congruence].
    cbn [queue_clear]. rewrite (bind_ok (get head) _ st (head st) st) by reflexivity.
    rewrite Hhd. rewrite first_or_app.
    destruct (first_or (first_or None [n]) l) as [h|] eqn:Eh; [|by destruct l].
    rewrite (bind_ok _ _ _ _ _ E1), (bind_ok _ _ _ _ _ E2). exact E3.
Qed.

Lemma inv_free_stack st ns fl : inv st ns fl → free_stack st fl.
Proof.
  intros [Hhd Htl Hc Hch Htop Hfl Hnd Hsz]. split_and!; [assumption|assumption|].
  by apply NoDup_app in Hnd as (_ & _ & ?).
Qed.

(** X1. [queue_clear] after a run empties the queue and gives its blocks back
    to the pool: the 32 blocks are free again and nothing is printed (no
    block is released twice). *)
Theorem queue_clear_after_run fuel events :
  (32 ≤ fuel)%nat →
  ∃ st st' fl,
    run fuel events boot = Ok (tt, st) ∧
    queue_clear fuel st = Ok (tt, st') ∧
    head st' = None ∧ tail st' = None ∧ device_count st' = 0 ∧
    live_entries fuel st' = Ok ([], st') ∧
    free_stack st' fl ∧ length fl = 32%nat ∧
    stdout st' = [].
Proof.
  intros Hfuel.
  destruct (run_alloc fuel events Hfuel)
    as (st & ns & fl & es & Hrun & Hinv & Hes & Hsteps & Hlive & Hids & Hout).
  assert (Hlen : (length ns ≤ 32)%nat) by (destruct Hinv as [[] _]; lia).
  destruct (queue_clear_spec fuel st ns fl Hinv) as (st' & E & [Hinv' Ha'] & Hout' & Hp');
    [lia|].
  pose proof (live_entries_spec fuel st' [] (ns ++ fl) Hinv' Hfuel) as Hlive'.
  pose proof (inv_free_stack _ _ _ Hinv') as Hfs.
  destruct Hinv' as [Hhd Htl Hc Hch Htop Hfl Hnd Hsz].
  exists st, st', (ns ++ fl).
  split_and!; [assumption|assumption|assumption|assumption|assumption|assumption|
               assumption|exact Hsz|congruence].
Qed.

Lemma queue_clear_after_run_witness :
  ∃ st st' fl,
    run 32 two_devices boot = Ok (tt, st) ∧
    queue_clear 32 st = Ok (tt, st') ∧
    head st' = None ∧ tail st' = None ∧ device_count st' = 0 ∧
    live_entries 32 st' = Ok ([], st') ∧
    free_stack st' fl ∧ length fl = 32%nat ∧
    stdout st' = [].
Proof. apply (queue_clear_after_run 32 two_devices). lia. Defined.

(** X2. After [queue_clear] the queue serves again as a new one: the live
    devices of a run, a [queue_clear] and further advertisements are the 32
    most recent of the further advertisements alone. *)
Theorem rerun_after_clear fuel events1 events2 :
  (32 ≤ fuel)%nat →
  ∃ st es,
    (run fuel events1;; queue_clear fuel;; discover fuel events2) boot = Ok (tt, st) ∧
    live_entries fuel st = Ok (es, st) ∧
    ids es = take 32 (recency (ids events2)) ∧
    stdout st = [].
Proof.
  intros Hfuel.
  destruct (run_alloc fuel events1 Hfuel)
    as (st & ns & fl & es & Hrun & Hinv & Hes & Hsteps & Hlive & Hids & Hout).
  assert (Hlen : (length ns ≤ 32)%nat) by (destruct Hinv as [[] _]; lia).
  destruct (queue_clear_spec fuel st ns fl Hinv) as (st1 & E1 & Hinv1 & Hout1 & Hp1);
    [lia|].
  destruct (discover_spec_alloc fuel events2 st1 [] (ns ++ fl) Hinv1 Hfuel)
    as (st2 & ns2 & fl2 & E2 & Hinv2 & Hsteps2 & Hout2).
  exists st2, (entries (pays (pool_blocks st2)) ns2).
  rewrite (bind_ok _ _ _ _ _ Hrun), (bind_ok _ _ _ _ _ E1).
  split_and!; [assumption| | |congruence].
  - eapply live_entries_spec; [apply Hinv2|assumption].
  - by apply steps_recency.
Qed.

Lemma rerun_after_clear_witness :
  ∃ st es,
    (run 32 (devices_up_to 33);; queue_clear 32;; discover 32 two_devices) boot
      = Ok (tt, st) ∧
    live_entries 32 st = Ok (es, st) ∧
    ids es = take 32 (recency (ids two_devices)) ∧
    stdout st = [].
Proof. apply (rerun_after_clear 32 (devices_up_to 33) two_devices). lia. Defined.

(** X3. Accounting of the pool: after every run nothing was printed (the
    guard against a large [device_count] never runs and no release is
    refused), the free stack of the pool is well formed, and the free blocks
    and the devices of the queue are 32 together. *)
Theorem pool_accounting fuel events :
  (32 ≤ fuel)%nat →
  ∃ st fl,
    run fuel events boot = Ok (tt, st) ∧
    stdout st = [] ∧
    free_stack st fl ∧
    Z.of_nat (length fl) + device_count st = 32.
Proof.
  intros Hfuel.
  destruct (run_alloc fuel events Hfuel)
    as (st & ns & fl & es & Hrun & [Hinv Ha] & Hes & Hsteps & Hlive & Hids & Hout).
  exists st, fl. split_and!; [assumption|assumption|by eapply inv_free_stack|].
  destruct Hinv as [Hhd Htl Hc Hch Htop Hfl Hnd Hsz]. lia.
Qed.

Lemma pool_accounting_witness :
  ∃ st fl,
    run 32 two_devices boot = Ok (tt, st) ∧
    stdout st = [] ∧
    free_stack st fl ∧
    Z.of_nat (length fl) + device_count st = 32.
Proof. apply (pool_accounting 32 two_devices). lia. Defined.

Lemma inv_of_pool_init st :
  empty_queue st →
  ∃ st0, pool_init sizeof_device_t 32 st = Ok (tt, st0) ∧
         inv_alloc st0 [] (seq 0 32) ∧ stdout st0 = stdout st.
Proof.
  intros (Hhd & Htl & Hc & Hlen).
  destruct (pool_init_spec sizeof_device_t 32 st) as
    (st0 & E & Htop & Hfl & _ & _ & Hhd0 & Htl0 & Hc0 & Ho0 & Hl0 & Hp0); [lia|lia|].
  exists st0. split_and!; [assumption| |assumption].
  split; [|by intros n ?%elem_of_nil].
  constructor; cbn [first_or last length app chain Z.of_nat]; try congruence;
    try assumption; try exact I; try reflexivity.
  - change (Z.of_nat 0) with 0. congruence.
  - apply (NoDup_seq 0 32).
Qed.

(** X4. [pool_init] makes the pool anew whatever the arena held: from any
    state with an empty queue (as after [test_pool] in [main]) the live
    devices after [pool_init] and a run are the 32 most recent ones. *)
Theorem pool_init_resets fuel events st :
  empty_queue st → (32 ≤ fuel)%nat →
  ∃ st' es,
    (pool_init sizeof_device_t 32;; discover fuel events) st = Ok (tt, st') ∧
    live_entries fuel st' = Ok (es, st') ∧
    ids es = take 32 (recency (ids events)) ∧
    stdout st' = stdout st.
Proof.
  intros Hempty Hfuel.
  destruct (inv_of_pool_init st Hempty) as (st0 & E0 & Hinv0 & Hout0).
  destruct (discover_spec_alloc fuel events st0 [] (seq 0 32) Hinv0 Hfuel)
    as (st2 & ns2 & fl2 & E2 & Hinv2 & Hsteps2 & Hout2).
  exists st2, (entries (pays (pool_blocks st2)) ns2).
  rewrite (bind_ok _ _ _ _ _ E0).
  split_and!; [assumption| | |congruence].
  - eapply live_entries_spec; [apply Hinv2|assumption].
  - by apply steps_recency.
Qed.

Lemma pool_init_resets_witness :
  ∃ st' es,
    (pool_init sizeof_device_t 32;; discover 32 two_devices) one_allocated
      = Ok (tt, st') ∧
    live_entries 32 st' = Ok (es, st') ∧
    ids es = take 32 (recency (ids two_devices)) ∧
    stdout st' = stdout one_allocated.
Proof.
  apply (pool_init_resets 32 two_devices one_allocated); [|lia].
  unfold empty_queue. split_and!; reflexivity.
Defined.

Lemma inv_block st ns fl n :
  inv st ns fl → n ∈ ns →
  ∃ b, pool_blocks st !! n = Some b ∧ entry_at (pays (pool_blocks st)) n = entry_of b.
Proof.
  intros [Hhd Htl Hc Hch Htop Hfl Hnd Hsz] Hn.
  destruct (chain_lookup _ _ _ _ _ Hch Hn) as [[p x] Hl].
  destruct (links_lookup _ _ _ _ Hl) as (b & Hb & _).
  exists b. split; [assumption|]. by apply entry_at_pays.
Qed.

(** X5. [find_duplicate] on the queue of a run returns [NULL] exactly when no
    live entry has the [device_id] asked for, and otherwise a block of the
    queue that holds this [device_id]; it changes nothing. *)
Theorem find_duplicate_reachable fuel events data :
  (32 ≤ fuel)%nat →
  ∃ st es r,
    run fuel events boot = Ok (tt, st) ∧
    live_entries fuel st = Ok (es, st) ∧
    find_duplicate fuel data st = Ok (r, st) ∧
    (r = None ↔ device_id data ∉ ids es) ∧
    (∀ n, r = Some n →
       ∃ b, pool_blocks st !! n = Some b ∧
            device_id (adv (mem b)) = device_id data ∧ entry_of b ∈ es).
Proof.
  intros Hfuel.
  destruct (run_live fuel events Hfuel)
    as (st & ns & fl & es & Hrun & Hinv & Hes & Hlive & Hids & Hc & Hout).
  assert (Hinv' := Hinv). destruct Hinv' as [Hhd Htl Hc' Hch Htop Hfl Hnd Hsz].
  destruct (find_duplicate_spec fuel data st ns Hhd Hch) as (r & Hr & Hfound); [lia|].
  exists st, es, r. split_and!; [assumption|assumption|assumption| |];
    clear Hrun Hlive Hr.
  - destruct Hfound as [Hall|l1 n l2 -> Hn Hall].
    + split; [|reflexivity]. intros _. rewrite Hes. apply fresh_ids.
      by apply fresh_entries.
    + split; [intros [=]|]. intros Hnin. exfalso. apply Hnin.
      rewrite Hes. unfold ids, entries. rewrite <- list_fmap_compose.
      apply list_elem_of_fmap. exists n. split; [by rewrite <- Hn|].
      apply elem_of_app. right. left.
  - intros n ->. inversion Hfound as [|l1 n' l2 Hns Hn Hall]. subst n'.
    assert (Hin : n ∈ ns) by (rewrite Hns; apply elem_of_app; right; left).
    destruct (inv_block st ns fl n Hinv Hin) as (b & Hb & He).
    exists b. split_and!; [assumption| |].
    + unfold id_at in Hn. by rewrite He in Hn.
    + rewrite Hes, <- He. unfold entries. by apply list_elem_of_fmap_2.
Qed.

Lemma find_duplicate_reachable_witness :
  ∃ st es r,
    run 32 two_devices boot = Ok (tt, st) ∧
    live_entries 32 st = Ok (es, st) ∧
    find_duplicate 32 (advert 2 0) st = Ok (r, st) ∧
    (r = None ↔ device_id (advert 2 0) ∉ ids es) ∧
    (∀ n, r = Some n →
       ∃ b, pool_blocks st !! n = Some b ∧
            device_id (adv (mem b)) = device_id (advert 2 0) ∧ entry_of b ∈ es).
Proof. apply (find_duplicate_reachable 32 two_devices (advert 2 0)). lia. Defined.

(** X6. [queue_pop] on the queue of a run: on an empty queue it returns
    [NULL] and changes nothing; otherwise it returns the block of the least
    recently updated entry, which leaves the queue, the other entries keep
    their order and [device_count] goes down by one. *)
Theorem queue_pop_reachable fuel events :
  (32 ≤ fuel)%nat →
  ∃ st es p st',
    run fuel events boot = Ok (tt, st) ∧
    live_entries fuel st = Ok (es, st) ∧
    queue_pop st = Ok (p, st') ∧
    (es = [] → p = None ∧ st' = st) ∧
    (∀ l e, es = l ++ [e] →
       ∃ n b, p = Some n ∧ pool_blocks st' !! n = Some b ∧ entry_of b = e ∧
              live_entries fuel st' = Ok (l, st') ∧
              device_count st' = device_count st - 1).
Proof.
  intros Hfuel.
  destruct (run_live fuel events Hfuel)
    as (st & ns & fl & es & Hrun & Hinv & Hes & Hlive & Hids & Hc & Hout).
  assert (Hinv' := Hinv). destruct Hinv' as [Hhd Htl Hc' Hch Htop Hfl Hnd Hsz].
  destruct ns as [|n k _] using rev_ind.
  - exists st, es, None, st.
    split_and!; [assumption|assumption| | |]; clear Hrun Hlive.
    + unfold queue_pop, mbind, M_bind, get. rewrite Htl. reflexivity.
    + intros _. split; reflexivity.
    + intros l e He. rewrite Hes in He. destruct l; discriminate He.
  - assert (Hlen : (length (k ++ [n]) ≤ 32)%nat) by lia.
    assert (Hndq : NoDup (k ++ [n])) by (by apply NoDup_app in Hnd as (? & _ & _)).
    destruct (queue_pop_spec st k n Hhd Htl Hc' Hlen Hch Hndq)
      as (st1 & E1 & Hhd1 & Htl1 & Hc1 & Hch1 & Hh1 & Ho1 & Hf1 & Hp1).
    exists st, es, (Some n), st1.
    split_and!; [assumption|assumption|assumption| |]; clear Hrun Hlive E1.
    + intros He. rewrite He in Hes. unfold entries in Hes.
      rewrite fmap_app in Hes. by destruct (entry_at _ <$> k).
    + intros l e He.
      assert (Hin : n ∈ k ++ [n]) by (apply elem_of_app; right; left).
      destruct (inv_block st _ fl n Hinv Hin) as (b & Hb & Heb).
      assert (Hlt : (n < length (pool_blocks st1))%nat).
      { rewrite (frees_length _ _ Hf1). by eapply lookup_lt_Some. }
      destruct (lookup_lt_is_Some_2 _ _ Hlt) as [b1 Hb1].
      rewrite Hes in He. unfold entries in He. rewrite fmap_app in He.
      simpl in He. apply app_inj_tail in He as [Hl He].
      exists n, b1. split_and!; [reflexivity|assumption| | |].
      * rewrite <- (entry_at_pays _ _ _ Hb1), Hp1. exact He.
      * rewrite (live_entries_chain fuel st1 k Hhd1 Hch1);
          [|rewrite length_app in Hlen; simpl in Hlen; lia].
        by rewrite Hp1, <- Hl.
      * rewrite Hc1, Hc', length_app. simpl. lia.
Qed.

Lemma queue_pop_reachable_witness :
  ∃ st es p st',
    run 32 two_devices boot = Ok (tt, st) ∧
    live_entries 32 st = Ok (es, st) ∧
    queue_pop st = Ok (p, st') ∧
    (es = [] → p = None ∧ st' = st) ∧
    (∀ l e, es = l ++ [e] →
       ∃ n b, p = Some n ∧ pool_blocks st' !! n = Some b ∧ entry_of b = e ∧
              live_entries 32 st' = Ok (l, st') ∧
              device_count st' = device_count st - 1).
Proof. apply (queue_pop_reachable 32 two_devices). lia. Defined.

Lemma entries_app P k1 k2 : entries P (k1 ++ k2) = entries P k1 ++ entries P k2.
Proof. apply fmap_app. Qed.

Lemma length_entries P ns : length (entries P ns) = length ns.
Proof. apply length_fmap. Qed.

(** X7. Moving an entry to the front: on the queue of a run, for a live
    entry of the [device_id] asked for, [find_duplicate] returns its block,
    [queue_remove] takes exactly this entry out (the others keep their
    order, [device_count] goes down by one) and [queue_push] puts it back as
    the most recent one, with its advertisement and time untouched. *)
Theorem move_to_front fuel events data st es l1 a t l2 :
  (32 ≤ fuel)%nat →
  run fuel events boot = Ok (tt, st) →
  live_entries fuel st = Ok (es, st) →
  es = l1 ++ (a, t) :: l2 →
  device_id a = device_id data →
  ∃ n st1 st2,
    find_duplicate fuel data st = Ok (Some n, st) ∧
    queue_remove (Some n) st = Ok (tt, st1) ∧
    live_entries fuel st1 = Ok (l1 ++ l2, st1) ∧
    device_count st1 = device_count st - 1 ∧
    queue_push (Some n) st1 = Ok (tt, st2) ∧
    live_entries fuel st2 = Ok ((a, t) :: l1 ++ l2, st2) ∧
    device_count st2 = device_count st.
Proof.
  intros Hfuel Hrun Hlive Hes Ha.
  destruct (run_live fuel events Hfuel)
    as (st0 & ns & fl & es0 & Hrun0 & Hinv & Hes0 & Hlive0 & Hids & Hc & Hout).
  assert (st0 = st) as -> by congruence.
  assert (es0 = es) as -> by congruence.
  clear Hrun Hrun0 Hlive Hlive0.
  assert (Hnde : NoDup (ids es)) by (rewrite Hids; apply NoDup_take_recency).
  assert (Hinv' := Hinv). destruct Hinv' as [Hhd Htl Hc' Hch Htop Hfl Hnd Hsz].
  destruct (find_duplicate_spec fuel data st ns Hhd Hch) as (r & Hr & Hfound); [lia|].
  destruct Hfound as [Hall|k1 n k2 -> Hn Hall].
  { exfalso. apply fresh_entries, fresh_ids in Hall. apply Hall.
    rewrite <- Hes0, Hes, ids_app. apply elem_of_app. right. rewrite <- Ha. left. }
  set (P := pays (pool_blocks st)) in *.
  assert (Hsplit : l1 = entries P k1 ∧ (a, t) = entry_at P n ∧ l2 = entries P k2).
  { rewrite Hes in Hes0, Hnde. rewrite entries_app in Hes0. simpl in Hes0.
    apply (split_unique _ _ _ _ _ _ Hnde Hes0). simpl. unfold id_at in Hn. congruence. }
  destruct Hsplit as (-> & He & ->).
  assert (Hlen : (length (k1 ++ n :: k2) ≤ 32)%nat) by lia.
  assert (Hndq : NoDup (k1 ++ n :: k2)) by (by apply NoDup_app in Hnd as (? & _ & _)).
  destruct (queue_remove_spec st k1 n k2 Hhd Htl Hc' Hlen Hch Hndq)
    as (st1 & E1 & Hhd1 & Htl1 & Hc1 & Hch1 & Hh1 & Ho1 & Hf1 & Hp1).
  assert (Hnin : n ∉ k1 ++ k2).
  { apply NoDup_app in Hndq as (_ & Hn1 & [Hn2 _]%NoDup_cons).
    intros [?|?]%elem_of_app; [|done]. eapply Hn1; [done|left]. }
  assert (Hndq1 : NoDup (k1 ++ k2)).
  { apply NoDup_app in Hndq as (? & Hn1 & [_ ?]%NoDup_cons).
    apply NoDup_app. split_and!; [done| |done].
    intros x Hx1 Hx2. eapply Hn1; [done|by right]. }
  assert (Hlt : (n < length (pool_blocks st))%nat).
  { apply links_lt. eapply chain_lookup; [done|]. apply elem_of_app. right. left. }
  rewrite length_app in Hlen. simpl in Hlen.
  destruct (queue_push_spec st1 n (k1 ++ k2) Hhd1 Htl1 Hc1) as
    (st2 & E2 & Hhd2 & Htl2 & Hc2 & Hch2 & Hh2 & Ho2 & Hf2 & Hp2);
    [rewrite length_app; lia|done|done|done|by rewrite (frees_length _ _ Hf1)|].
  exists n, st1, st2.
  split_and!; [assumption|assumption| | |assumption| |]; clear Hr E1 E2.
  - rewrite (live_entries_chain fuel st1 (k1 ++ k2) Hhd1 Hch1)
      by (rewrite length_app; lia).
    by rewrite Hp1, entries_app.
  - rewrite Hc1, Hc', !length_app. simpl. lia.
  - rewrite (live_entries_chain fuel st2 (n :: k1 ++ k2) Hhd2 Hch2)
      by (simpl; rewrite length_app; lia).
    rewrite Hp2, Hp1. fold P. unfold entries. rewrite fmap_cons, fmap_app.
    by rewrite <- He.
  - rewrite Hc2, Hc'. simpl. rewrite !length_app. simpl. f_equal. lia.
Qed.

Lemma move_to_front_witness :
  ∃ n st1 st2,
    find_duplicate 32 (advert 1 5) after_two_devices = Ok (Some n, after_two_devices) ∧
    queue_remove (Some n) after_two_devices = Ok (tt, st1) ∧
    live_entries 32 st1 = Ok ([(advert 2 20, 101)] ++ [], st1) ∧
    device_count st1 = device_count after_two_devices - 1 ∧
    queue_push (Some n) st1 = Ok (tt, st2) ∧
    live_entries 32 st2 = Ok ((advert 1 10, 100) :: [(advert 2 20, 101)] ++ [], st2) ∧
    device_count st2 = device_count after_two_devices.
Proof.
  apply (move_to_front 32 two_devices (advert 1 5) after_two_devices
           [(advert 2 20, 101); (advert 1 10, 100)]
           [(advert 2 20, 101)] (advert 1 10) 100 []);
    [lia|vm_compute; reflexivity|vm_compute; reflexivity|reflexivity|reflexivity].
Defined.

(** ** Where the entries come from *)

Lemma set_rssi_set_rssi r r' a : set_rssi r (set_rssi r' a) = set_rssi r a.
Proof. reflexivity. Qed.

Lemma set_rssi_id a : set_rssi (rssi a) a = a.
Proof. by destruct a. Qed.

Lemma last_event_snoc_eq id events d t :
  device_id d = id → last_event id (events ++ [(d, t)]) = Some (d, t).
Proof.
  intros Hd. unfold last_event. rewrite filter_app, filter_cons_True by done.
  rewrite filter_nil. apply last_snoc.
Qed.

Lemma last_event_snoc_ne id events d t :
  device_id d ≠ id → last_event id (events ++ [(d, t)]) = last_event id events.
Proof.
  intros Hd. unfold last_event. rewrite filter_app, filter_cons_False by done.
  by rewrite filter_nil, app_nil_r.
Qed.

Lemma from_events_snoc seen e d t :
  device_id d ≠ device_id e.1 → from_events seen e → from_events (seen ++ [(d, t)]) e.
Proof.
  intros Hne (d1 & d0 & t0 & Hlast & Hin & Hid & He).
  exists d1, d0, t0. rewrite last_event_snoc_ne by done.
  split_and!; try done. apply elem_of_app. by left.
Qed.

Lemma from_events_new seen d t : from_events (seen ++ [(d, t)]) (d, t).
Proof.
  exists d, d, t. simpl. rewrite last_event_snoc_eq by done.
  split_and!; try done.
  - apply elem_of_app. right. left.
  - by rewrite set_rssi_id.
Qed.

Lemma step_from_events seen data ts es es' :
  NoDup (ids es) → Forall (from_events seen) es → step data ts es es' →
  Forall (from_events (seen ++ [(data, ts)])) es'.
Proof.
  intros Hnd Hall Hstep.
  assert (Hkeep : ∀ l, fresh (device_id data) l → Forall (from_events seen) l →
                       Forall (from_events (seen ++ [(data, ts)])) l).
  { intros l Hf Hl. apply Forall_forall. intros e He.
    apply from_events_snoc.
    - intros Heq. eapply Forall_forall in Hf; [|exact He]. by apply Hf.
    - eapply Forall_forall in Hl; [done|exact He]. }
  destruct Hstep as [l1 a t l2 Ha Hfresh|es Hfresh Hlt|es e Hfresh Hfull].
  - apply Forall_app in Hall as [H1 [Ha2 H2]%Forall_cons].
    assert (Hf2 : fresh (device_id data) l2).
    { rewrite ids_app in Hnd. apply NoDup_app in Hnd as (_ & _ & [Hn _]%NoDup_cons).
      apply fresh_ids. by rewrite <- Ha. }
    apply Forall_cons. split; [|apply Forall_app; split; by apply Hkeep].
    destruct Ha2 as (d1 & d0 & t0 & Hlast & Hin & Hid & He). simpl in *.
    exists data, d0, t0. simpl.
    rewrite last_event_snoc_eq by done.
    split_and!; try done.
    + apply elem_of_app. by left.
    + by rewrite He.
  - apply Forall_cons. split; [apply from_events_new|by apply Hkeep].
  - apply Forall_cons. split; [apply from_events_new|].
    apply Forall_app in Hall as [H1 _]. apply Forall_app in Hfresh as [Hf _].
    by apply Hkeep.
Qed.

Lemma steps_from_events seen events es es' :
  tracks (ids seen) es → Forall (from_events seen) es → steps events es es' →
  Forall (from_events (seen ++ events)) es'.
Proof.
  intros Htr Hall Hsteps. revert seen Htr Hall.
  induction Hsteps as [es|data ts events es1 es2 es3 Hstep Hsteps IH]; intros seen Htr Hall.
  - by rewrite app_nil_r.
  - change ((data, ts) :: events) with ([(data, ts)] ++ events).
    rewrite app_assoc. apply IH.
    + rewrite ids_app. by eapply step_tracks.
    + eapply step_from_events; [|done|done].
      rewrite Htr. apply NoDup_take_recency.
Qed.

(** X8. Every entry of the queue holds the time and the rssi of the last
    advertisement of its device, and the other members of some advertisement
    of this device: a repeated advertisement updates [rssi] and
    [discovery_time] only. *)
Theorem entry_of_last_advertisement fuel events st es a t :
  (32 ≤ fuel)%nat →
  run fuel events boot = Ok (tt, st) →
  live_entries fuel st = Ok (es, st) →
  (a, t) ∈ es →
  ∃ d d0 t0,
    last_event (device_id a) events = Some (d, t) ∧
    (d0, t0) ∈ events ∧ device_id d0 = device_id a ∧
    a = set_rssi (rssi d) d0.
Proof.
  intros Hfuel Hrun Hlive Hin.
  destruct (run_spec fuel events Hfuel) as (st0 & ns & fl & Hrun0 & Hinv & Hsteps & Hout).
  assert (st0 = st) as -> by congruence.
  rewrite (live_entries_spec fuel st ns fl Hinv Hfuel) in Hlive.
  assert (es = entries (pays (pool_blocks st)) ns) as -> by congruence.
  clear Hrun Hrun0 Hlive.
  assert (H : Forall (from_events ([] ++ events)) (entries (pays (pool_blocks st)) ns)).
  { apply (steps_from_events [] events []); [reflexivity|constructor|assumption]. }
  eapply Forall_forall in H; [|exact Hin]. exact H.
Qed.

Lemma entry_of_last_advertisement_witness :
  ∃ d d0 t0,
    last_event (device_id (advert 1 10)) two_devices = Some (d, 100) ∧
    (d0, t0) ∈ two_devices ∧ device_id d0 = device_id (advert 1 10) ∧
    advert 1 10 = set_rssi (rssi d) d0.
Proof.
  apply (entry_of_last_advertisement 32 two_devices after_two_devices
           [(advert 2 20, 101); (advert 1 10, 100)]);
    [lia|vm_compute; reflexivity|vm_compute; reflexivity|].
  right. left.
Defined.

Lemma steps_snoc_inv events data ts es1 es3 :
  steps (events ++ [(data, ts)]) es1 es3 →
  ∃ es2, steps events es1 es2 ∧ step data ts es2 es3.
Proof.
  revert es1. induction events as [|[d t] events IH]; intros es1 H.
  - inversion H as [|? ? ? ? es2 ? Hstep Hsteps]; subst.
    inversion Hsteps; subst. exists es1. split; [constructor|done].
  - inversion H as [|? ? ? ? es2 ? Hstep Hsteps]; subst.
    destruct (IH _ Hsteps) as (es & H1 & H2).
    exists es. split; [by econstructor|done].
Qed.

Lemma step_head data ts es es' :
  step data ts es es' →
  ∃ a l, es' = (a, ts) :: l ∧ device_id a = device_id data ∧ rssi a = rssi data.
Proof.
  intros [l1 a t l2 Ha Hfresh|es0 Hfresh Hlt|es0 e Hfresh Hfull].
  - by exists (set_rssi (rssi data) a), (l1 ++ l2).
  - by exists data, es0.
  - by exists data, es0.
Qed.

(** X9. An advertisement that repeats the last one (same device, same rssi,
    same time) leaves the entries of the queue and [device_count] as they
    are, and prints nothing. *)
Theorem repeated_advertisement fuel events data ts :
  (32 ≤ fuel)%nat →
  ∃ st1 st2 es,
    run fuel (events ++ [(data, ts)]) boot = Ok (tt, st1) ∧
    on_discovery fuel data ts st1 = Ok (tt, st2) ∧
    live_entries fuel st1 = Ok (es, st1) ∧
    live_entries fuel st2 = Ok (es, st2) ∧
    device_count st2 = device_count st1 ∧
    stdout st2 = [].
Proof.
  intros Hfuel.
  destruct (run_spec fuel (events ++ [(data, ts)]) Hfuel)
    as (st1 & ns & fl & Hrun & Hinv & Hsteps & Hout).
  destruct (on_discovery_spec fuel data ts st1 ns fl Hinv Hfuel)
    as (st2 & ns2 & fl2 & E & Hinv2 & Hstep & Hout2).
  exists st1, st2, (entries (pays (pool_blocks st1)) ns).
  split_and!; [assumption|assumption| | | |congruence].
  - by eapply live_entries_spec.
  - clear Hrun E.
    rewrite (live_entries_spec fuel st2 ns2 fl2 Hinv2 Hfuel).
    assert (Hnd : NoDup (ids (entries (pays (pool_blocks st1)) ns))).
    { rewrite (steps_recency _ _ Hsteps). apply NoDup_take_recency. }
    apply steps_snoc_inv in Hsteps as (es0 & _ & Hlast).
    apply step_head in Hlast as (a & l & Hes & Ha & Hr).
    rewrite Hes in Hstep, Hnd.
    apply (step_merge_inv data ts [] a ts l) in Hstep; [|exact Hnd|exact Ha].
    rewrite Hstep, Hes, <- Hr, set_rssi_id. reflexivity.
  - clear Hrun E.
    assert (Hnd : NoDup (ids (entries (pays (pool_blocks st1)) ns))).
    { rewrite (steps_recency _ _ Hsteps). apply NoDup_take_recency. }
    apply steps_snoc_inv in Hsteps as (es0 & _ & Hlast).
    apply step_head in Hlast as (a & l & Hes & Ha & Hr).
    destruct Hinv as [_ _ Hc _ _ _ _ _]. destruct Hinv2 as [_ _ Hc2 _ _ _ _ _].
    rewrite Hc, Hc2. f_equal.
    rewrite <- (length_entries (pays (pool_blocks st1)) ns).
    rewrite <- (length_entries (pays (pool_blocks st2)) ns2).
    rewrite Hes in Hstep, Hnd.
    apply (step_merge_inv data ts [] a ts l) in Hstep; [|exact Hnd|exact Ha].
    rewrite Hstep, Hes. reflexivity.
Qed.

Lemma repeated_advertisement_witness :
  ∃ st1 st2 es,
    run 32 (two_devices ++ [(advert 1 7, 102)]) boot = Ok (tt, st1) ∧
    on_discovery 32 (advert 1 7) 102 st1 = Ok (tt, st2) ∧
    live_entries 32 st1 = Ok (es, st1) ∧
    live_entries 32 st2 = Ok (es, st2) ∧
    device_count st2 = device_count st1 ∧
    stdout st2 = [].
Proof. apply (repeated_advertisement 32 two_devices (advert 1 7) 102). lia. Defined.

Lemma first_event_snoc_Some id seen x e :
  first_event id seen = Some e → first_event id (seen ++ [x]) = Some e.
Proof.
  unfold first_event. rewrite filter_app. intros H. by apply lookup_app_l_Some.
Qed.

Lemma filter_id_absent id (seen : list entry) :
  id ∉ ids seen → filter (λ ev : entry, device_id ev.1 = id) seen = [].
Proof.
  induction seen as [|e seen IH]; [done|].
  unfold ids. rewrite fmap_cons. intros [Hne Hnin]%not_elem_of_cons.
  rewrite filter_cons_False by (by intros ?). by apply IH.
Qed.

Lemma first_event_snoc_new id seen d t :
  device_id d = id → id ∉ ids seen → first_event id (seen ++ [(d, t)]) = Some (d, t).
Proof.
  intros Hd Hnin. unfold first_event. rewrite filter_app.
  rewrite filter_id_absent by done.
  by rewrite filter_cons_True.
Qed.

Lemma length_remove_dups_app (l1 l2 : list Z) :
  (length (remove_dups l1) ≤ length (remove_dups (l1 ++ l2)))%nat.
Proof.
  apply submseteq_length, NoDup_submseteq; [apply NoDup_remove_dups|].
  intros x. rewrite !elem_of_remove_dups, elem_of_app. by left.
Qed.

Lemma tracks_all s es :
  tracks s es → (length (remove_dups s) ≤ 32)%nat → ids es = recency s.
Proof.
  unfold tracks. intros -> H. apply take_ge. unfold recency.
  by rewrite length_reverse.
Qed.

Lemma elem_of_recency x s : x ∈ recency s ↔ x ∈ s.
Proof. unfold recency. by rewrite elem_of_reverse, elem_of_remove_dups. Qed.

Lemma from_first_snoc seen e d t :
  device_id d ≠ device_id e.1 → from_first seen e → from_first (seen ++ [(d, t)]) e.
Proof.
  intros Hne (d0 & t0 & d1 & Hfirst & Hlast & He).
  exists d0, t0, d1. rewrite last_event_snoc_ne by done.
  split_and!; try done. by apply first_event_snoc_Some.
Qed.

Lemma step_from_first seen data ts es es' :
  tracks (ids seen) es → Forall (from_first seen) es →
  (length (remove_dups (ids (seen ++ [(data, ts)]))) ≤ 32)%nat →
  step data ts es es' →
  Forall (from_first (seen ++ [(data, ts)])) es'.
Proof.
  intros Htr Hall Hlen Hstep.
  assert (Hlen0 : (length (remove_dups (ids seen)) ≤ 32)%nat).
  { rewrite ids_app in Hlen. etrans; [apply length_remove_dups_app|exact Hlen]. }
  pose proof (tracks_all _ _ Htr Hlen0) as Hids.
  assert (Hnd : NoDup (ids es)) by (rewrite Hids; apply NoDup_recency).
  assert (Hkeep : ∀ l, fresh (device_id data) l → Forall (from_first seen) l →
                       Forall (from_first (seen ++ [(data, ts)])) l).
  { intros l Hf Hl. apply Forall_forall. intros e He.
    apply from_first_snoc.
    - intros Heq. eapply Forall_forall in Hf; [|exact He]. by apply Hf.
    - eapply Forall_forall in Hl; [done|exact He]. }
  assert (Hnew : fresh (device_id data) es → from_first (seen ++ [(data, ts)]) (data, ts)).
  { intros Hf%fresh_ids. rewrite Hids, elem_of_recency in Hf.
    exists data, ts, data. simpl. rewrite last_event_snoc_eq by done.
    rewrite first_event_snoc_new by done. by rewrite set_rssi_id. }
  destruct Hstep as [l1 a t l2 Ha Hfresh|es Hfresh Hlt|es e Hfresh Hfull].
  - apply Forall_app in Hall as [H1 [Ha2 H2]%Forall_cons].
    assert (Hf2 : fresh (device_id data) l2).
    { rewrite ids_app in Hnd. apply NoDup_app in Hnd as (_ & _ & [Hn _]%NoDup_cons).
      apply fresh_ids. by rewrite <- Ha. }
    apply Forall_cons. split; [|apply Forall_app; split; by apply Hkeep].
    destruct Ha2 as (d0 & t0 & d1 & Hfirst & Hlast & He). simpl in *.
    exists d0, t0, data. simpl.
    rewrite last_event_snoc_eq by done.
    split_and!; try done.
    + by apply first_event_snoc_Some.
    + by rewrite He.
  - apply Forall_cons. split; [by apply Hnew|by apply Hkeep].
  - exfalso. assert (Hf := Hfresh). apply fresh_ids in Hf.
    rewrite Hids, elem_of_recency in Hf.
    rewrite ids_app in Hlen. simpl in Hlen.
    rewrite remove_dups_snoc, length_app, filter_ne_id in Hlen
      by (by rewrite elem_of_remove_dups).
    simpl in Hlen.
    assert (length (ids (es ++ [e])) = 32%nat) by (by rewrite length_ids).
    rewrite Hids in H. unfold recency in H. rewrite length_reverse in H. lia.
Qed.

Lemma steps_from_first seen events es es' :
  tracks (ids seen) es → Forall (from_first seen) es →
  (length (remove_dups (ids (seen ++ events))) ≤ 32)%nat →
  steps events es es' →
  Forall (from_first (seen ++ events)) es'.
Proof.
  intros Htr Hall Hlen Hsteps. revert seen Htr Hall Hlen.
  induction Hsteps as [es|data ts events es1 es2 es3 Hstep Hsteps IH];
    intros seen Htr Hall Hlen.
  - by rewrite app_nil_r.
  - change ((data, ts) :: events) with ([(data, ts)] ++ events) in *.
    rewrite app_assoc in Hlen |- *. apply IH; [| |exact Hlen].
    + rewrite ids_app. by eapply step_tracks.
    + eapply step_from_first; [done|done| |done].
      rewrite ids_app in Hlen. etrans; [apply length_remove_dups_app|exact Hlen].
Qed.

(** X10. As long as at most 32 devices were seen (none was ever evicted),
    every device seen is in the queue, and its entry holds the time and the
    rssi of its last advertisement and the name, data and address of its
    first one. *)
Theorem entry_keeps_first_advertisement fuel events st es :
  (32 ≤ fuel)%nat →
  (length (remove_dups (ids events)) ≤ 32)%nat →
  run fuel events boot = Ok (tt, st) →
  live_entries fuel st = Ok (es, st) →
  ids es = recency (ids events) ∧
  ∀ a t, (a, t) ∈ es →
    ∃ d0 t0 d,
      first_event (device_id a) events = Some (d0, t0) ∧
      last_event (device_id a) events = Some (d, t) ∧
      a = set_rssi (rssi d) d0.
Proof.
  intros Hfuel Hlen Hrun Hlive.
  destruct (run_spec fuel events Hfuel) as (st0 & ns & fl & Hrun0 & Hinv & Hsteps & Hout).
  assert (st0 = st) as -> by congruence.
  rewrite (live_entries_spec fuel st ns fl Hinv Hfuel) in Hlive.
  assert (es = entries (pays (pool_blocks st)) ns) as -> by congruence.
  clear Hrun Hrun0 Hlive. split.
  - apply tracks_all; [|exact Hlen]. by apply steps_recency.
  - intros a t Hin.
    assert (H : Forall (from_first ([] ++ events)) (entries (pays (pool_blocks st)) ns)).
    { apply (steps_from_first [] events []); [reflexivity|constructor|exact Hlen|assumption]. }
    eapply Forall_forall in H; [|exact Hin]. exact H.
Qed.

Lemma entry_keeps_first_advertisement_witness :
  ids [(advert 2 20, 101); (advert 1 10, 100)] = recency (ids two_devices) ∧
  ∀ a t, (a, t) ∈ [(advert 2 20, 101); (advert 1 10, 100)] →
    ∃ d0 t0 d,
      first_event (device_id a) two_devices = Some (d0, t0) ∧
      last_event (device_id a) two_devices = Some (d, t) ∧
      a = set_rssi (rssi d) d0.
Proof.
  apply (entry_keeps_first_advertisement 32 two_devices after_two_devices);
    [lia|vm_compute; lia|vm_compute; reflexivity|vm_compute; reflexivity].
Defined.

(** ** The pool alone *)

Lemma with_nextfree_id b p : nextfree b = p → with_nextfree p b = b.
Proof. destruct b. simpl. by intros ->. Qed.

(** X11. [pool_free] of an allocated block followed by [pool_alloc] hands
    the same block out again and restores the whole state: the header, every
    block and the queue are as before, and nothing is printed. *)
Theorem pool_free_then_alloc st n b :
  pool_blocks st !! n = Some b → nextfree b = None →
  (pool_free (Some n);; pool_alloc sizeof_device_t) st = Ok (Some n, st).
Proof.
  destruct st as [[top bsz bct] bs c hd tl out]. simpl. intros Hb Hnf.
  unfold pool_free, pool_alloc, mbind, M_bind.
  exec. rewrite Hnf. exec.
  unfold set_fp_nextfree, set_header, set_blocks. simpl.
  rewrite list_insert_insert_eq.
  rewrite list_insert_id; [done|].
  rewrite Hb. f_equal. destruct b. simpl in *. by subst.
Qed.

Lemma pool_free_then_alloc_witness :
  (pool_free (Some 0%nat);; pool_alloc sizeof_device_t) one_allocated
    = Ok (Some 0%nat, one_allocated).
Proof.
  apply (pool_free_then_alloc one_allocated 0 (mk_block None (mk_device zero_adv 0 None None)));
    reflexivity.
Defined.

(** X12. [pool_alloc] followed by [pool_free] of its result restores the
    whole state when the pool had a free block; on an exhausted pool
    [pool_alloc] returns [NULL] and [pool_free] prints the warning of a null
    free, the state being otherwise unchanged. *)
Theorem pool_alloc_then_free st :
  (fp_nextfree (pool_header st) = None →
   (p ← pool_alloc sizeof_device_t; pool_free p) st = Ok (tt, emit [warn_null_free] st)) ∧
  (∀ n, fp_nextfree (pool_header st) = Some n → is_Some (pool_blocks st !! n) →
   (p ← pool_alloc sizeof_device_t; pool_free p) st = Ok (tt, st)).
Proof.
  destruct st as [[top bsz bct] bs c hd tl out]. simpl. split.
  - by intros ->.
  - intros n -> [b Hb].
    unfold pool_free, pool_alloc, mbind, M_bind.
    exec.
    unfold set_fp_nextfree, set_header, set_blocks. simpl.
    rewrite list_insert_insert_eq.
    rewrite list_insert_id; [done|].
    rewrite Hb. f_equal. by destruct b.
Qed.

Lemma pool_alloc_then_free_witness :
  (p ← pool_alloc sizeof_device_t; pool_free p) boot = Ok (tt, emit [warn_null_free] boot) ∧
  (p ← pool_alloc sizeof_device_t; pool_free p) ready = Ok (tt, ready).
Proof.
  split.
  - apply (proj1 (pool_alloc_then_free boot)). reflexivity.
  - apply (proj2 (pool_alloc_then_free ready) 0%nat); [reflexivity|].
    eexists. reflexivity.
Defined.

Lemma first_or_snoc nx l n : first_or nx (l ++ [n]) = first_or None (l ++ [n]).
Proof. by destruct l. Qed.

Lemma first_or_app_cons nx l n l' : first_or nx (l ++ n :: l') = first_or None (l ++ [n]).
Proof. by destruct l. Qed.

(** A free stack that starts like [fl1 ++ [n]] reaches [n], whatever the
    link of [n] itself is. *)
Lemma free_chain_reaches F x fl1 n fl2 r :
  n ∉ fl1 → free_chain F (fl1 ++ n :: fl2) →
  free_chain (<[n:=x]> F) r →
  first_or None r = first_or None (fl1 ++ [n]) → n ∈ r.
Proof.
  revert r. induction fl1 as [|m fl1 IH]; intros r Hn Hfl Hr Hfirst.
  - destruct r as [|k r]; [done|]. injection Hfirst as ->. left.
  - apply not_elem_of_cons in Hn as [Hne Hn].
    destruct r as [|k r]; [done|]. injection Hfirst as ->.
    destruct Hfl as [Hm Hfl]. destruct Hr as [Hm' Hr].
    rewrite list_lookup_insert_ne in Hm' by done.
    rewrite Hm in Hm'. injection Hm' as Hm'.
    right. apply IH; try done.
    by rewrite <- Hm', first_or_app_cons.
Qed.

(** X13. Release of a block that is free already: [pool_free] returns, it
    prints the warning exactly when the block is not the bottom one of the
    free stack, and in both cases it links the block in again, after which
    the free blocks are no stack any more (the links run in a cycle). *)
Theorem pool_free_of_free_block st fl1 n fl2 :
  free_stack st (fl1 ++ n :: fl2) →
  ∃ st',
    pool_free (Some n) st = Ok (tt, st') ∧
    stdout st' = stdout st ++ match fl2 with
                              | [] => []
                              | m :: _ => [warn_double_free n m]
                              end ∧
    ¬ ∃ fl', free_stack st' fl'.
Proof.
  destruct st as [[top bsz bct] bs c hd tl out]. unfold free_stack. simpl.
  intros (-> & Hfl & Hnd).
  assert (Hn : frees bs !! n = Some (first_or None fl2)).
  { clear Hnd. induction fl1 as [|m fl1 IH]; [by destruct Hfl|].
    destruct Hfl as [_ Hfl]. by apply IH. }
  destruct (frees_lookup _ _ _ Hn) as (b & Hb & Hnf).
  assert (Hnin : n ∉ fl1).
  { apply NoDup_app in Hnd as (_ & Hd & _). intros Hin. eapply Hd; [done|left]. }
  unfold pool_free, mbind, M_bind. exec. rewrite Hnf.
  destruct fl2 as [|m fl2]; exec.
  - eexists. split; [reflexivity|]. split; [by rewrite app_nil_r|].
    intros (fl' & Htop & Hch & Hnd'). simpl in *.
    destruct fl' as [|k r]; [done|]. injection Htop as <-.
    unfold frees in Hch. rewrite list_fmap_insert in Hch. fold (frees bs) in Hch.
    destruct Hch as [Hk Hr]. simpl in Hk.
    rewrite list_lookup_insert_eq in Hk by (eapply lookup_lt_Some; exact Hn).
    injection Hk as Hk.
    apply NoDup_cons in Hnd' as [Hnin' _]. apply Hnin'.
    eapply (free_chain_reaches (frees bs) _ fl1 n []); done.
  - eexists. split; [reflexivity|]. split; [done|].
    intros (fl' & Htop & Hch & Hnd'). simpl in *.
    destruct fl' as [|k r]; [done|]. injection Htop as <-.
    unfold frees in Hch. rewrite list_fmap_insert in Hch. fold (frees bs) in Hch.
    destruct Hch as [Hk Hr]. simpl in Hk.
    rewrite list_lookup_insert_eq in Hk by (eapply lookup_lt_Some; exact Hn).
    injection Hk as Hk.
    apply NoDup_cons in Hnd' as [Hnin' _]. apply Hnin'.
    eapply (free_chain_reaches (frees bs) _ fl1 n (m :: fl2)); try done.
    by rewrite <- Hk, first_or_app_cons.
Qed.

Lemma pool_free_of_free_block_witness :
  ∃ st',
    pool_free (Some 1%nat) ready = Ok (tt, st') ∧
    stdout st' = stdout ready ++ match seq 2 30 with
                                 | [] => []
                                 | m :: _ => [warn_double_free 1 m]
                                 end ∧
    ¬ ∃ fl', free_stack st' fl'.
Proof.
  apply (pool_free_of_free_block ready [0%nat] 1%nat (seq 2 30)).
  split; [reflexivity|]. split; [vm_compute; repeat split|].
  apply (NoDup_seq 0 32).
Defined.

(** X14. [pool_init] with a [blockcount] of 0, or one above [INT_MAX + 1]
    (for which [int i = blockcount - 1] is negative), links no block: it
    only writes the header, the free stack is empty and [pool_alloc] returns
    [NULL]. *)
Theorem pool_init_no_blocks bsize bcount st :
  bcount = 0 ∨ 2147483648 < bcount < 4294967296 →
  ∃ st',
    pool_init bsize bcount st = Ok (tt, st') ∧
    st' = set_header (mk_fixedpool None bsize bcount) st ∧
    pool_alloc sizeof_device_t st' = Ok (None, st').
Proof.
  intros H. eexists. split; [|split; [reflexivity|reflexivity]].
  unfold pool_init, mbind, M_bind, modify, get. simpl.
  assert (Z.to_nat (to_int (uint32_wrap (bcount - 1)) + 1) = 0%nat) as ->.
  { unfold to_int, uint32_wrap. destruct H as [->|H]; [reflexivity|].
    rewrite (Z.mod_small (bcount - 1)) by lia.
    replace (bcount - 1 + 2147483648) with (bcount - 2147483649 + 1 * 4294967296) by lia.
    rewrite Z.mod_add by lia. rewrite Z.mod_small by lia. lia. }
  reflexivity.
Qed.

Lemma pool_init_no_blocks_witness :
  ∃ st',
    pool_init sizeof_device_t 4294967295 boot = Ok (tt, st') ∧
    st' = set_header (mk_fixedpool None sizeof_device_t 4294967295) boot ∧
    pool_alloc sizeof_device_t st' = Ok (None, st').
Proof. apply (pool_init_no_blocks sizeof_device_t 4294967295 boot). right. lia. Defined.

Lemma pool_init_loop_fault n prev cur st :
  (length (pool_blocks st) < n)%nat → pool_init_loop n prev cur st = Fault.
Proof.
  intros H. destruct n as [|i]; [lia|].
  simpl. unfold mbind, M_bind, store.
  rewrite (lookup_ge_None_2 (pool_blocks st) i) by lia. reflexivity.
Qed.

(** X15. [pool_init] with more blocks than the arena holds writes past its
    end: the first store of the loop, to the last block, is outside of
    [device_pool]. *)
Theorem pool_init_out_of_arena (N : nat) st :
  (length (pool_blocks st) < N)%nat → Z.of_nat N ≤ 2147483648 →
  pool_init sizeof_device_t (Z.of_nat N) st = Fault.
Proof.
  intros Hlen HN. unfold pool_init, mbind, M_bind, modify, get. simpl.
  rewrite to_int_blockcount by done.
  rewrite pool_init_loop_fault; [reflexivity|]. simpl. exact Hlen.
Qed.

Lemma pool_init_out_of_arena_witness :
  pool_init sizeof_device_t (Z.of_nat 33) boot = Fault.
Proof. apply (pool_init_out_of_arena 33 boot); [vm_compute; lia|lia]. Defined.

Lemma free_loop_spec ps fl st :
  fp_nextfree (pool_header st) = first_or None fl →
  free_chain (frees (pool_blocks st)) fl → NoDup (ps ++ fl) →
  (∀ n, n ∈ ps → frees (pool_blocks st) !! n = Some None) →
  ∃ st', free_loop (Some <$> ps) st = Ok (tt, st') ∧
         fp_nextfree (pool_header st') = first_or None (reverse ps ++ fl) ∧
         free_chain (frees (pool_blocks st')) (reverse ps ++ fl) ∧
         pool_frame st st'.
Proof.
  revert fl st. induction ps as [|n ps IH]; intros fl st Htop Hfl Hnd Ha.
  - exists st. unfold pool_frame. by split_and!.
  - simpl in Hnd. apply NoDup_cons in Hnd as [Hn Hnd].
    apply not_elem_of_app in Hn as [Hn1 Hn2].
    destruct (pool_free_spec st n fl Htop Hfl Hn2) as
      (st1 & E1 & Htop1 & Hfl1 & Hother1 & Hhd1 & Htl1 & Hc1 & Ho1 & Hl1 & Hp1).
    { apply Ha. left. }
    destruct (IH (n :: fl) st1) as
      (st2 & E2 & Htop2 & Hfl2 & Hhd2 & Htl2 & Hc2 & Ho2 & Hl2 & Hp2).
    { exact Htop1. }
    { exact Hfl1. }
    { apply NoDup_app in Hnd as (Hd1 & Hd2 & Hd3). apply NoDup_app.
      split_and!; [done| |by apply NoDup_cons].
      intros x Hx [->|Hx']%elem_of_cons; [done|]. by eapply Hd2. }
    { intros m Hm. rewrite Hother1; [apply Ha; by right|]. by intros ->. }
    exists st2. rewrite fmap_cons. simpl. rewrite (bind_ok _ _ _ _ _ E1).
    rewrite reverse_cons, <- app_assoc. simpl.
    split_and!; [assumption|assumption|assumption|].
    unfold pool_frame. split_and!; congruence.
Qed.

(** X16. The round of [test_pool], for every capacity [N] that the arena
    holds: [pool_init], [N] calls of [pool_alloc], then [pool_free] of the
    [N] pointers in the order they were handed out.  Nothing is printed, all
    [N] blocks are free again, stacked in the reverse order, so that the
    next [N] calls of [pool_alloc] return the blocks N-1 .. 0. *)
Theorem alloc_all_free_all (N : nat) st :
  (N ≤ length (pool_blocks st))%nat → Z.of_nat N ≤ 2147483648 →
  ∃ st1 st2,
    (pool_init sizeof_device_t (Z.of_nat N);;
     ps ← alloc_loop N; free_loop ps) st = Ok (tt, st1) ∧
    stdout st1 = stdout st ∧
    free_stack st1 (reverse (seq 0 N)) ∧
    alloc_loop N st1 = Ok (Some <$> reverse (seq 0 N), st2) ∧
    pool_alloc sizeof_device_t st2 = Ok (None, st2).
Proof.
  intros Hlen HN.
  destruct (pool_init_spec sizeof_device_t N st Hlen HN)
    as (st1 & E1 & Htop1 & Hfl1 & _ & _ & F1).
  destruct (alloc_loop_spec (seq 0 N) [] st1)
    as (st2 & E2 & Htop2 & Hfl2 & Hin2 & _ & F2).
  { by rewrite app_nil_r. }
  { by rewrite app_nil_r. }
  { rewrite app_nil_r. apply NoDup_seq. }
  rewrite length_seq in E2.
  destruct (free_loop_spec (seq 0 N) [] st2 Htop2 Hfl2)
    as (st3 & E3 & Htop3 & Hfl3 & F3).
  { rewrite app_nil_r. apply NoDup_seq. }
  { exact Hin2. }
  rewrite app_nil_r in Htop3, Hfl3.
  assert (Hnd : NoDup (reverse (seq 0 N))).
  { rewrite reverse_Permutation. apply NoDup_seq. }
  destruct (alloc_loop_spec (reverse (seq 0 N)) [] st3)
    as (st4 & E4 & Htop4 & _ & _ & _ & _).
  { by rewrite app_nil_r. }
  { by rewrite app_nil_r. }
  { by rewrite app_nil_r. }
  rewrite length_reverse, length_seq in E4.
  exists st3, st4.
  rewrite (bind_ok _ _ _ _ _ E1), (bind_ok _ _ _ _ _ E2).
  split_and!; [assumption| |by split_and!|assumption|by apply pool_alloc_empty].
  destruct F1 as (_ & _ & _ & O1 & _). destruct F2 as (_ & _ & _ & O2 & _).
  destruct F3 as (_ & _ & _ & O3 & _). congruence.
Qed.

Lemma alloc_all_free_all_witness :
  ∃ st1 st2,
    (pool_init sizeof_device_t (Z.of_nat 4);;
     ps ← alloc_loop 4; free_loop ps) boot = Ok (tt, st1) ∧
    stdout st1 = stdout boot ∧
    free_stack st1 (reverse (seq 0 4)) ∧
    alloc_loop 4 st1 = Ok (Some <$> reverse (seq 0 4), st2) ∧
    pool_alloc sizeof_device_t st2 = Ok (None, st2).
Proof. apply (alloc_all_free_all 4 boot); [vm_compute; lia|lia]. Defined.

(** X17. [pool_destroy] clears the header only: the blocks keep their
    links, [pool_alloc] returns [NULL] from then on, and a [pool_free] of any
    block makes this block the whole free stack. *)
Theorem pool_destroy_empties st n :
  is_Some (pool_blocks st !! n) →
  ∃ st1 st2,
    pool_destroy st = Ok (tt, st1) ∧
    pool_blocks st1 = pool_blocks st ∧
    pool_alloc sizeof_device_t st1 = Ok (None, st1) ∧
    pool_free (Some n) st1 = Ok (tt, st2) ∧
    free_stack st2 [n].
Proof.
  destruct st as [[top bsz bct] bs c hd tl out]. simpl. intros [b Hb].
  exists (mk_state (mk_fixedpool None 0 0) bs c hd tl out).
  assert (Hfree : ∃ st2,
    pool_free (Some n) (mk_state (mk_fixedpool None 0 0) bs c hd tl out) = Ok (tt, st2) ∧
    free_stack st2 [n]).
  { unfold pool_free, mbind, M_bind. exec.
    destruct (nextfree b) as [nf|] eqn:Hnf; exec.
    - eexists. split; [reflexivity|].
      split_and!; [reflexivity| |apply NoDup_singleton].
      simpl. unfold frees. rewrite list_lookup_fmap. look. done.
    - eexists. split; [reflexivity|].
      split_and!; [reflexivity| |apply NoDup_singleton].
      simpl. unfold frees. rewrite list_lookup_fmap. look. done. }
  destruct Hfree as (st2 & E & Hst). exists st2.
  split_and!; [reflexivity|reflexivity|reflexivity|assumption|assumption].
Qed.

Lemma pool_destroy_empties_witness :
  ∃ st1 st2,
    pool_destroy ready = Ok (tt, st1) ∧
    pool_blocks st1 = pool_blocks ready ∧
    pool_alloc sizeof_device_t st1 = Ok (None, st1) ∧
    pool_free (Some 3%nat) st1 = Ok (tt, st2) ∧
    free_stack st2 [3%nat].
Proof. apply (pool_destroy_empties ready 3). eexists. reflexivity. Defined.

(** X18. The guard loop of [on_discovery] does not end when [device_count]
    is above 32 and the queue is empty: [queue_pop] returns [NULL] and leaves
    [device_count] alone, [pool_free] prints its warning, and the test of
    the loop holds again.  [on_discovery] of a new device then never
    returns. *)
Theorem large_count_loop_diverges fuel st :
  tail st = None → 32 < device_count st →
  large_count_loop fuel st = OutOfFuel ∧
  (head st = None → ∀ data ts, on_discovery fuel data ts st = OutOfFuel).
Proof.
  intros Htl Hc.
  assert (Hloop : ∀ fuel st, tail st = None → 32 < device_count st →
                             large_count_loop fuel st = OutOfFuel).
  { clear. intros fuel. induction fuel as [|fuel IH]; intros st Htl Hc.
    - simpl. unfold mbind, M_bind, get. by rewrite (proj2 (Z.ltb_lt _ _)) by lia.
    - simpl. unfold mbind, M_bind, get. rewrite (proj2 (Z.ltb_lt _ _)) by lia.
      unfold printf, modify, queue_pop, mbind, M_bind, get. simpl. rewrite Htl.
      simpl. apply IH; simpl; done. }
  split; [by apply Hloop|].
  intros Hhd data ts. unfold on_discovery, find_duplicate, mbind, M_bind, get.
  rewrite Hhd.
  assert (Hf : find_duplicate_loop fuel data None st = Ok (None, st)) by (by destruct fuel).
  rewrite Hf. cbv beta iota. by rewrite Hloop.
Qed.

Lemma large_count_loop_diverges_witness :
  large_count_loop 1000 (set_device_count 33 boot) = OutOfFuel ∧
  (head (set_device_count 33 boot) = None →
   ∀ data ts, on_discovery 1000 data ts (set_device_count 33 boot) = OutOfFuel).
Proof.
  apply (large_count_loop_diverges 1000 (set_device_count 33 boot)); [reflexivity|].
  simpl. lia.
Defined.

Lemma live_entries_loop_ext fuel cur st st' es s :
  links (pool_blocks st') = links (pool_blocks st) →
  pays (pool_blocks st') = pays (pool_blocks st) →
  live_entries_loop fuel cur st = Ok (es, s) →
  live_entries_loop fuel cur st' = Ok (es, st').
Proof.
  intros Hl Hp. revert cur es s.
  induction fuel as [|fuel IH]; intros [n|] es s; simpl; try done.
  - intros H. by inversion H.
  - unfold mbind, M_bind, load.
    destruct (pool_blocks st !! n) as [b|] eqn:Hb; [|done].
    assert (Hlb : links (pool_blocks st') !! n = Some (link_of b)).
    { rewrite Hl. unfold links. by rewrite list_lookup_fmap, Hb. }
    assert (Hpb : pays (pool_blocks st') !! n = Some (entry_of b)).
    { rewrite Hp. unfold pays. by rewrite list_lookup_fmap, Hb. }
    unfold links in Hlb. unfold pays in Hpb. rewrite list_lookup_fmap in Hlb. rewrite list_lookup_fmap in Hpb.
    destruct (pool_blocks st' !! n) as [b'|]; [|done].
    simpl in Hlb, Hpb. injection Hlb as Hpv Hnx. injection Hpb as Hadv Htime.
    rewrite Hnx.
    destruct (live_entries_loop fuel (next (mem b)) st) as [[es0 s0]| |] eqn:E; try done.
    rewrite (IH _ _ _ E). intros H. inversion H. subst.
    unfold entry_of. by rewrite Hadv, Htime.
  - intros H. by inversion H.
Qed.

Lemma pool_alloc_frame sz st p st' :
  pool_alloc sz st = Ok (p, st') → pool_frame st st'.
Proof.
  destruct st as [[top bsz bct] bs c hd tl out].
  unfold pool_alloc, pool_frame, mbind, M_bind, get, load. simpl.
  destruct top as [n|]; [|intros H; inversion H; by split_and!].
  destruct (bs !! n) as [b|] eqn:Hb; [exec|simpl; rewrite Hb; done].
  intros H. inversion H. subst. views. by split_and!.
Qed.

Lemma pool_free_frame q st st' :
  pool_free q st = Ok (tt, st') →
  head st' = head st ∧ tail st' = tail st ∧ device_count st' = device_count st ∧
  links (pool_blocks st') = links (pool_blocks st) ∧
  pays (pool_blocks st') = pays (pool_blocks st).
Proof.
  destruct st as [[top bsz bct] bs c hd tl out].
  unfold pool_free, mbind, M_bind, get, load. simpl.
  destruct q as [n|]; [|intros H; inversion H; by split_and!].
  destruct (bs !! n) as [b|] eqn:Hb; [exec|simpl; rewrite Hb; done].
  destruct (nextfree b) as [nf|]; exec;
    intros H; inversion H; subst; views; by split_and!.
Qed.

(** X19. The allocator never disturbs the queue, though both live in the
    same blocks: whatever [pool_alloc] and [pool_free] are called on, if
    they return then [head], [tail], [device_count] and the entries reached
    from [head] are as before. *)
Theorem pool_keeps_queue fuel st es :
  live_entries fuel st = Ok (es, st) →
  (∀ p st', pool_alloc sizeof_device_t st = Ok (p, st') →
     live_entries fuel st' = Ok (es, st') ∧
     head st' = head st ∧ tail st' = tail st ∧ device_count st' = device_count st) ∧
  (∀ q st', pool_free q st = Ok (tt, st') →
     live_entries fuel st' = Ok (es, st') ∧
     head st' = head st ∧ tail st' = tail st ∧ device_count st' = device_count st).
Proof.
  intros Hlive. unfold live_entries, mbind, M_bind, get in *. split.
  - intros p st' H. apply pool_alloc_frame in H as (Hhd & Htl & Hc & _ & Hl & Hp).
    split_and!; [|assumption|assumption|assumption].
    rewrite Hhd. by eapply live_entries_loop_ext.
  - intros q st' H. apply pool_free_frame in H as (Hhd & Htl & Hc & Hl & Hp).
    split_and!; [|assumption|assumption|assumption].
    rewrite Hhd. by eapply live_entries_loop_ext.
Qed.

Lemma pool_keeps_queue_witness :
  (∀ p st', pool_alloc sizeof_device_t after_two_devices = Ok (p, st') →
     live_entries 32 st' = Ok ([(advert 2 20, 101); (advert 1 10, 100)], st') ∧
     head st' = head after_two_devices ∧ tail st' = tail after_two_devices ∧
     device_count st' = device_count after_two_devices) ∧
  (∀ q st', pool_free q after_two_devices = Ok (tt, st') →
     live_entries 32 st' = Ok ([(advert 2 20, 101); (advert 1 10, 100)], st') ∧
     head st' = head after_two_devices ∧ tail st' = tail after_two_devices ∧
     device_count st' = device_count after_two_devices).
Proof.
  apply (pool_keeps_queue 32 after_two_devices [(advert 2 20, 101); (advert 1 10, 100)]).
  vm_compute. reflexivity.
Defined.

(** ** Printing between advertisements *)

Lemma step_det data ts es es1 es2 :
  NoDup (ids es) → step data ts es es1 → step data ts es es2 → es1 = es2.
Proof.
  intros Hnd H1 H2.
  destruct H1 as [l1 a t l2 Ha Hfresh|es Hfresh Hlt|es e Hfresh Hfull].
  - symmetry. by eapply step_merge_inv.
  - apply step_cases in H2 as (_ & H2 & _). symmetry. apply H2; [|done].
    by apply fresh_ids.
  - apply step_cases in H2 as (_ & _ & H2).
    destruct H2 as (l & e' & Heq & ->); [by apply fresh_ids|done|].
    apply app_inj_tail in Heq as [-> _]. done.
Qed.

Lemma steps_det seen events es es1 es2 :
  tracks seen es → steps events es es1 → steps events es es2 → es1 = es2.
Proof.
  intros Htr H1. revert seen es2 Htr.
  induction H1 as [es|data ts events es es' es1 Hstep Hsteps IH]; intros seen es2 Htr H2.
  - by inversion H2.
  - inversion H2 as [|? ? ? ? es'' ? Hstep' Hsteps']; subst.
    assert (es'' = es') as ->.
    { eapply step_det; [|done|done]. rewrite Htr. apply NoDup_take_recency. }
    eapply IH; [|done]. by eapply step_tracks.
Qed.

Lemma steps_app events1 events2 es1 es2 es3 :
  steps events1 es1 es2 → steps events2 es2 es3 → steps (events1 ++ events2) es1 es3.
Proof.
  intros H1 H2. induction H1 as [es|data ts events es es' es1 Hstep Hsteps IH]; [done|].
  simpl. econstructor; [done|]. by apply IH.
Qed.

Lemma inv_emit ls st ns fl : inv st ns fl → inv (emit ls st) ns fl.
Proof. intros [Hhd Htl Hc Hch Htop Hfl Hnd Hsz]. by constructor. Qed.

(** X21. Printing in the middle of a run changes nothing for the queue: the
    entries after a run, [print_queue_by_time] and further advertisements
    are those of the same advertisements without the print, and [stdout]
    holds the rows of the entries that were live at the print. *)
Theorem print_between_runs fuel events1 events2 :
  (32 ≤ fuel)%nat →
  ∃ st1 es1 st es st0,
    run fuel events1 boot = Ok (tt, st1) ∧
    live_entries fuel st1 = Ok (es1, st1) ∧
    (run fuel events1;; print_queue_by_time fuel;; discover fuel events2) boot
      = Ok (tt, st) ∧
    live_entries fuel st = Ok (es, st) ∧
    stdout st = hdr_by_time :: (row_of_entry <$> es1) ∧
    run fuel (events1 ++ events2) boot = Ok (tt, st0) ∧
    live_entries fuel st0 = Ok (es, st0).
Proof.
  intros Hfuel.
  destruct (run_spec fuel events1 Hfuel) as (st1 & ns1 & fl1 & Hrun1 & Hinv1 & Hsteps1 & Hout1).
  pose proof (print_queue_by_time_spec fuel st1 ns1 fl1 Hinv1 Hfuel) as Hprint.
  set (rows := hdr_by_time :: _) in Hprint.
  destruct (discover_spec fuel events2 (emit rows st1) ns1 fl1 (inv_emit _ _ _ _ Hinv1) Hfuel)
    as (st & ns & fl & E & Hinv & Hsteps & Hout).
  destruct (run_spec fuel (events1 ++ events2) Hfuel)
    as (st0 & ns0 & fl0 & Hrun0 & Hinv0 & Hsteps0 & Hout0).
  exists st1, (entries (pays (pool_blocks st1)) ns1), st,
    (entries (pays (pool_blocks st)) ns), st0.
  rewrite (bind_ok _ _ _ _ _ Hrun1), (bind_ok _ _ _ _ _ Hprint).
  split_and!; [assumption| |assumption| | |assumption|]; clear Hrun1 Hrun0 Hprint E.
  - by eapply live_entries_spec.
  - by eapply live_entries_spec.
  - rewrite Hout. simpl. by rewrite Hout1.
  - rewrite (live_entries_spec fuel st0 ns0 fl0 Hinv0 Hfuel). do 2 f_equal.
    eapply (steps_det [] (events1 ++ events2) []); [reflexivity|exact Hsteps0|].
    eapply steps_app; [exact Hsteps1|exact Hsteps].
Qed.

Lemma print_between_runs_witness :
  ∃ st1 es1 st es st0,
    run 32 two_devices boot = Ok (tt, st1) ∧
    live_entries 32 st1 = Ok (es1, st1) ∧
    (run 32 two_devices;; print_queue_by_time 32;; discover 32 [(advert 1 7, 102)]) boot
      = Ok (tt, st) ∧
    live_entries 32 st = Ok (es, st) ∧
    stdout st = hdr_by_time :: (row_of_entry <$> es1) ∧
    run 32 (two_devices ++ [(advert 1 7, 102)]) boot = Ok (tt, st0) ∧
    live_entries 32 st0 = Ok (es, st0).
Proof. apply (print_between_runs 32 two_devices [(advert 1 7, 102)]). lia. Defined.

(** ** [print_queue_by_rssi] on a full queue *)

Lemma print_queue_by_rssi_full_witness :
  ∃ st es,
    run 32 (devices_up_to 32) boot = Ok (tt, st) ∧
    live_entries 32 st = Ok (es, st) ∧
    print_queue_by_rssi 32 st =
      Ok (tt, emit (hdr_by_rssi :: (row_of_entry <$> rssi_order entry_rssi es)) st) ∧
    rssi_order entry_rssi es ≡ₚ es ∧
    Sorted (λ a b, entry_rssi b ≤ entry_rssi a) (rssi_order entry_rssi es) ∧
    (∀ v, filter (λ e, entry_rssi e = v) (rssi_order entry_rssi es) =
          filter (λ e, entry_rssi e = v) es).
Proof.
  apply (print_queue_by_rssi_full 32 (devices_up_to 32)); [lia|vm_compute; lia].
Defined.
